(** * Topic resolution and duplicate detection of the Telegram backup bot

    A shallow embedding of [duplicate_detector.py] (class
    [ImprovedDuplicateDetector]) and of the topic registry of
    [telegram_bot.py] ([normalize_topic_name], [load_topics],
    [get_or_create_topic]), with the properties of the design document
    stated and settled over it; then of the rest of [telegram_bot.py]:
    [save_topics], [log_forwarded_media], [has_media], [forward_media] and
    [process_media].

    Conventions.
    - A Python [str] is a list of Unicode code points ([list N]).
    - The interpreter's Unicode tables ([unicodedata.normalize],
      [unicodedata.category]) are a parameter, [UnicodeData]; the facts
      used about them are the three laws of [UnicodeAsciiLaws], which say
      that ASCII text is already normalised and carries no combining mark.
    - Similarity scores are Python floats; they are modelled by exact
      rationals ([Q]), so binary64 rounding is abstracted away.  Score
      equations are stated with [==].
    - [difflib.SequenceMatcher(None, a, b).ratio()] is transcribed from the
      standard library ([SequenceMatcher] below).
    - The files and the messaging platform are parameters: what reading
      a file gives, whether a write or a call returns or raises.  The
      calls made are recorded, in order, in the [calls] of a [world]. *)

From Stdlib Require Import NArith ZArith QArith Lia Lqa String Ascii DecimalString.
From stdpp Require Import gmap list.

Open Scope N_scope.

(** ** Strings *)

Abbreviation str := (list N).

(** Code points of an ASCII literal, for readable examples. *)
Fixpoint py (s : string) : str :=
  match s with
  | EmptyString => []
  | String c t => N_of_ascii c :: py t
  end.

Definition str_eqb (a b : str) : bool := bool_decide (a = b).

(** [ord(char) < 128] *)
Definition is_ascii (c : N) : bool := c <? 128.

(** The class [\s] of [re] on [str] patterns, which is also the white
    space of [str.strip()] and [str.split()]. *)
Definition is_space (c : N) : bool :=
  ((9 <=? c) && (c <=? 13)) || ((28 <=? c) && (c <=? 32))
  || (c =? 133) || (c =? 160) || (c =? 5760)
  || ((8192 <=? c) && (c <=? 8202)) || (c =? 8232) || (c =? 8233)
  || (c =? 8239) || (c =? 8287) || (c =? 12288).

Definition is_digit (c : N) : bool := (48 <=? c) && (c <=? 57).
Definition is_upper (c : N) : bool := (65 <=? c) && (c <=? 90).
Definition is_lower (c : N) : bool := (97 <=? c) && (c <=? 122).

(** The class [\w] of [re], on its ASCII rows: letters, digits and the
    underscore.  The patterns below only ever run on the output of the
    [ord(char) < 128] filter (see [ascii_only_is_ascii]), so the rows of
    code points from 128 on are never consulted. *)
Definition is_word (c : N) : bool :=
  is_digit c || is_upper c || is_lower c || (c =? 95).

(** [str.lower()], on ASCII text. *)
Definition lower_char (c : N) : N := if is_upper c then c + 32 else c.
Definition lower (s : str) : str := map lower_char s.

Fixpoint lstrip (s : str) : str :=
  match s with
  | [] => []
  | c :: t => if is_space c then lstrip t else s
  end.

Definition rstrip (s : str) : str := rev (lstrip (rev s)).

(** [str.strip()] *)
Definition strip (s : str) : str := rstrip (lstrip s).

(** [str.split()]: the maximal runs of non-blank characters.  [cur] is
    the run being read, most recent character first. *)
Fixpoint split_from (cur : str) (s : str) : list str :=
  match s with
  | [] => match cur with [] => [] | _ => [rev cur] end
  | c :: t =>
      if is_space c
      then match cur with
           | [] => split_from [] t
           | _ => rev cur :: split_from [] t
           end
      else split_from (c :: cur) t
  end.

Definition split (s : str) : list str := split_from [] s.

(** ** The Unicode tables *)

Record UnicodeData := {
  nfd : str -> str;          (* unicodedata.normalize('NFD', s) *)
  nfc : str -> str;          (* unicodedata.normalize('NFC', s) *)
  is_Mn : N -> bool          (* unicodedata.category(c) == 'Mn' *)
}.

Record UnicodeAsciiLaws (U : UnicodeData) : Prop := {
  nfd_ascii : forall s, forallb is_ascii s = true -> nfd U s = s;
  nfc_ascii : forall s, forallb is_ascii s = true -> nfc U s = s;
  Mn_not_ascii : forall c, is_ascii c = true -> is_Mn U c = false
}.

(** ** The cleanup patterns of the detector *)

Inductive pattern :=
| NonWordNonSpace     (* r'[^\w\s]' *)
| SpaceRun            (* r'\s+'     *)
| Edges.              (* r'^\s+|\s+$' *)

(** [re.sub(r'[^\w\s]', ' ', s)] *)
Definition sub_punct (s : str) : str :=
  map (fun c => if is_word c || is_space c then c else 32) s.

(** [re.sub(r'\s+', ' ', s)]; [in_run] tells that the previous character
    belonged to the run being replaced. *)
Fixpoint sub_runs (in_run : bool) (s : str) : str :=
  match s with
  | [] => []
  | c :: t =>
      if is_space c
      then (if in_run then sub_runs true t else 32 :: sub_runs true t)
      else c :: sub_runs false t
  end.

(** [re.sub(r'^\s+|\s+$', '', s)] *)
Definition sub_edges (s : str) : str := rstrip (lstrip s).

Definition re_sub (p : pattern) (s : str) : str :=
  match p with
  | NonWordNonSpace => sub_punct s
  | SpaceRun => sub_runs false s
  | Edges => sub_edges s
  end.

Definition cleanup_patterns : list pattern := [NonWordNonSpace; SpaceRun; Edges].

(** [''.join(char if ord(char) < 128 else ' ' for char in s)] *)
Definition ascii_only (s : str) : str :=
  map (fun c => if is_ascii c then c else 32) s.

Section Normalizer.
Variable U : UnicodeData.

(** [''.join(char for char in s if unicodedata.category(char) != 'Mn')] *)
Definition strip_marks (s : str) : str :=
  List.filter (fun c => negb (is_Mn U c)) s.

(** [ImprovedDuplicateDetector.normalize_topic_name] *)
Definition normalize_topic_name (name : str) : str :=
  match name with
  | [] => []
  | _ =>
      let normalized := nfd U name in
      let no_accents := strip_marks normalized in
      let normalized := nfc U no_accents in
      let cleaned := fold_left (fun s p => re_sub p s) cleanup_patterns
                               (ascii_only normalized) in
      strip (lower cleaned)
  end.

(** [normalize_topic_name] of [telegram_bot.py] *)
Definition bot_normalize_topic_name (name : str) : str :=
  match name with
  | [] => []
  | _ =>
      let normalized := nfd U name in
      let no_accents := strip_marks normalized in
      let clean := sub_punct (ascii_only no_accents) in
      lower (strip (sub_runs false clean))
  end.
End Normalizer.

(** ** A fragment of the Unicode tables

    Exact on the code points below U+0100, on the combining diacritical
    marks U+0300..U+036F, and on symbols that have no decomposition and are
    not combining (emoji).  It supplies the closed examples. *)
Module Latin1.
Definition base_of (c : N) : option (N * N) :=
  let lowc := if (224 <=? c) then c - 32 else c in
  let shift := if (224 <=? c) then 32 else 0 in
  let mk b m := Some (b + shift, m) in
  if (c <? 192) || (255 <? c) then None
  else if c =? 255 then Some (121, 776)
  else match lowc with
  | 192 => mk 65 768 | 193 => mk 65 769 | 194 => mk 65 770
  | 195 => mk 65 771 | 196 => mk 65 776 | 197 => mk 65 778
  | 199 => mk 67 807
  | 200 => mk 69 768 | 201 => mk 69 769 | 202 => mk 69 770
  | 203 => mk 69 776
  | 204 => mk 73 768 | 205 => mk 73 769 | 206 => mk 73 770
  | 207 => mk 73 776
  | 209 => mk 78 771
  | 210 => mk 79 768 | 211 => mk 79 769 | 212 => mk 79 770
  | 213 => mk 79 771 | 214 => mk 79 776
  | 217 => mk 85 768 | 218 => mk 85 769 | 219 => mk 85 770
  | 220 => mk 85 776 | 221 => mk 89 769
  | _ => None
  end.

Definition decompose (c : N) : str :=
  match base_of c with
  | Some (b, m) => [b; m]
  | None => [c]
  end.

Definition db : UnicodeData := {|
  nfd := fun s => concat (map decompose s);
  nfc := fun s => s;
  is_Mn := fun c => (768 <=? c) && (c <=? 879)
|}.
End Latin1.

(** ** [difflib.SequenceMatcher]

    The matcher is built as [SequenceMatcher(None, a, b)]: no junk
    predicate, so [bjunk] is empty and the two junk-extension loops of
    [find_longest_match] never run; [autojunk] keeps its default [True]. *)
Module SequenceMatcher.
Section Matcher.
Variables a b : str.

Fixpoint indices_from (j : nat) (s : str) (elt : N) : list nat :=
  match s with
  | [] => []
  | c :: t =>
      if c =? elt then j :: indices_from (S j) t elt
      else indices_from (S j) t elt
  end.

(** [b2j.get(elt, [])] after [__chain_b]: the positions of [elt] in
    [b], increasing; when [len(b) >= 200] the elements that occur more
    than [len(b) // 100 + 1] times have been deleted from the index. *)
Definition b2j (elt : N) : list nat :=
  let n := length b in
  let idxs := indices_from 0 b elt in
  if (200 <=? n)%nat && (n / 100 + 1 <? length idxs)%nat then [] else idxs.

(** [j2len.get(j - 1, 0)] *)
Definition j2len_prev (j2len : list (nat * nat)) (j : nat) : nat :=
  match j with
  | O => O
  | S j' =>
      match List.find (fun e => (fst e =? j')%nat) j2len with
      | Some e => snd e
      | None => O
      end
  end.

(** The loop [for j in b2j.get(a[i], nothing)], with its [continue] and
    [break]. *)
Fixpoint scan_row (blo bhi i : nat) (j2len : list (nat * nat)) (js : list nat)
         (best : nat * nat * nat) (newj2len : list (nat * nat))
  : (nat * nat * nat) * list (nat * nat) :=
  match js with
  | [] => (best, newj2len)
  | j :: js' =>
      if (j <? blo)%nat then scan_row blo bhi i j2len js' best newj2len
      else if (bhi <=? j)%nat then (best, newj2len)
      else
        let k := S (j2len_prev j2len j) in
        let best' :=
          if (snd best <? k)%nat then ((i + 1 - k)%nat, (j + 1 - k)%nat, k)
          else best in
        scan_row blo bhi i j2len js' best' ((j, k) :: newj2len)
  end.

(** The loop [for i in range(alo, ahi)]. *)
Fixpoint scan (blo bhi : nat) (is_ : list nat) (best : nat * nat * nat)
         (j2len : list (nat * nat)) : nat * nat * nat :=
  match is_ with
  | [] => best
  | i :: rest =>
      let '(best', newj2len) :=
        scan_row blo bhi i j2len (b2j (nth i a 0)) best [] in
      scan blo bhi rest best' newj2len
  end.

(** [while besti > alo and bestj > blo and a[besti-1] == b[bestj-1]] *)
Fixpoint extend_left (fuel alo blo : nat) (m : nat * nat * nat) : nat * nat * nat :=
  match fuel with
  | O => m
  | S f =>
      let '(i, j, k) := m in
      if (alo <? i)%nat && (blo <? j)%nat
         && (nth (i - 1) a 0 =? nth (j - 1) b 0)
      then extend_left f alo blo ((i - 1)%nat, (j - 1)%nat, S k)
      else m
  end.

(** [while besti+bestsize < ahi and bestj+bestsize < bhi and
    a[besti+bestsize] == b[bestj+bestsize]] *)
Fixpoint extend_right (fuel ahi bhi : nat) (m : nat * nat * nat) : nat * nat * nat :=
  match fuel with
  | O => m
  | S f =>
      let '(i, j, k) := m in
      if (i + k <? ahi)%nat && (j + k <? bhi)%nat
         && (nth (i + k) a 0 =? nth (j + k) b 0)
      then extend_right f ahi bhi (i, j, S k)
      else m
  end.

Definition find_longest_match (alo ahi blo bhi : nat) : nat * nat * nat :=
  let best := scan blo bhi (seq alo (ahi - alo)) (alo, blo, O) [] in
  let best := extend_left (fst (fst best)) alo blo best in
  extend_right ahi ahi bhi best.

(** The work loop of [get_matching_blocks]; the head of [queue] is the
    element [queue.pop()] takes. *)
Fixpoint blocks_loop (fuel : nat) (queue : list (nat * nat * nat * nat))
         (blocks : list (nat * nat * nat)) : list (nat * nat * nat) :=
  match fuel with
  | O => blocks
  | S f =>
      match queue with
      | [] => blocks
      | (alo, ahi, blo, bhi) :: q =>
          let '(i, j, k) := find_longest_match alo ahi blo bhi in
          match k with
          | O => blocks_loop f q blocks
          | _ =>
              let q1 := if (alo <? i)%nat && (blo <? j)%nat
                        then (alo, i, blo, j) :: q else q in
              let q2 := if (i + k <? ahi)%nat && (j + k <? bhi)%nat
                        then ((i + k)%nat, ahi, (j + k)%nat, bhi) :: q1 else q1 in
              blocks_loop f q2 (blocks ++ [(i, j, k)])
          end
      end
  end.

(** The blocks found.  [get_matching_blocks] goes on to sort them, to
    merge adjacent ones and to append a sentinel of size 0, none of
    which changes the sum of the sizes that [ratio] takes. *)
Definition matching_blocks : list (nat * nat * nat) :=
  blocks_loop (2 * length a + 1) [(O, length a, O, length b)] [].

Definition matches : nat :=
  fold_left (fun acc t => (acc + snd t)%nat) matching_blocks O.

(** [_calculate_ratio(matches, len(a) + len(b))] *)
Definition ratio : Q :=
  match (length a + length b)%nat with
  | O => 1%Q
  | len => (inject_Z (2 * Z.of_nat matches) / inject_Z (Z.of_nat len))%Q
  end.
End Matcher.
End SequenceMatcher.

(** ** [ImprovedDuplicateDetector] *)

Definition Qltb (x y : Q) : bool := negb (Qle_bool y x).

(** [max(xs, default=0.0)]: the first greatest element. *)
Definition max_default (xs : list Q) : Q :=
  match xs with
  | [] => 0%Q
  | x :: t => fold_left (fun m y => if Qltb m y then y else m) t x
  end.

(** [sum(xs)] *)
Definition Qsum (xs : list Q) : Q := fold_left Qplus xs 0%Q.

Definition Qlen {A} (xs : list A) : Q := inject_Z (Z.of_nat (length xs)).

Definition stop_words : gset str :=
  list_to_set (map py
    ["channel"; "group"; "chat"; "oficial"; "official"; "vip"; "premium";
     "new"; "novo"; "nova"; "the"; "a"; "an"]%string).

(** The [details] dictionary returned next to a score, by [method]. *)
Inductive details :=
| EmptyInput
| ExactMatch (normalized_1 normalized_2 : str)
| Hybrid (score : Q) (normalized_1 normalized_2 : str)
         (sequence_similarity keyword_similarity word_similarity : Q)
         (keywords_1 keywords_2 : gset str).

Record check_result := {
  is_duplicate : bool;
  similar_topic : option str;
  similarity : Q;
  all_scores : list (str * Q)
}.

Section Detector.
Variable U : UnicodeData.
Variable similarity_threshold : Q.

Definition extract_keywords (name : str) : gset str :=
  let normalized := normalize_topic_name U name in
  let words : gset str := list_to_set (split normalized) in
  filter (fun word => (2 <= length word)%nat /\ word ∉ stop_words) words.

(** [len(intersection) / len(union)] when both sets are non-empty. *)
Definition keyword_similarity_of (keywords1 keywords2 : gset str) : Q :=
  if bool_decide (keywords1 ≠ ∅) && bool_decide (keywords2 ≠ ∅)
  then (inject_Z (Z.of_nat (size (keywords1 ∩ keywords2)))
        / inject_Z (Z.of_nat (size (keywords1 ∪ keywords2))))%Q
  else 0%Q.

(** One of the two loops that fill [word_similarities]. *)
Definition best_matches (ws1 ws2 : list str) : list Q :=
  map (fun w1 => max_default (map (fun w2 => SequenceMatcher.ratio w1 w2) ws2)) ws1.

Definition word_avg_similarity_of (words1 words2 : list str) : Q :=
  let word_similarities := best_matches words1 words2 ++ best_matches words2 words1 in
  match word_similarities with
  | [] => 0%Q
  | _ => (Qsum word_similarities / Qlen word_similarities)%Q
  end.

Definition calculate_similarity (name1 name2 : str) : Q * details :=
  match name1, name2 with
  | [], _ | _, [] => (0%Q, EmptyInput)
  | _, _ =>
      let norm1 := normalize_topic_name U name1 in
      let norm2 := normalize_topic_name U name2 in
      if str_eqb norm1 norm2 then (1%Q, ExactMatch norm1 norm2)
      else
        let seq_similarity := SequenceMatcher.ratio norm1 norm2 in
        let keywords1 := extract_keywords name1 in
        let keywords2 := extract_keywords name2 in
        let keyword_similarity := keyword_similarity_of keywords1 keywords2 in
        let words1 := split norm1 in
        let words2 := split norm2 in
        let word_avg_similarity := word_avg_similarity_of words1 words2 in
        let final_score :=
          (seq_similarity * 0.4 + keyword_similarity * 0.35
           + word_avg_similarity * 0.25)%Q in
        (final_score,
         Hybrid final_score norm1 norm2 seq_similarity keyword_similarity
                word_avg_similarity keywords1 keywords2)
  end.

Definition are_duplicates (name1 name2 : str) : bool * Q * details :=
  let '(similarity, details) := calculate_similarity name1 name2 in
  (Qle_bool similarity_threshold similarity, similarity, details).

(** The loop of [check_against_existing], over the keys in insertion
    order; the state is [(best_match, best_similarity, all_scores)]. *)
Fixpoint check_loop (new_name : str) (keys : list str)
         (best_match : option str) (best_similarity : Q)
         (scores : list (str * Q)) : option str * Q * list (str * Q) :=
  match keys with
  | [] => (best_match, best_similarity, scores)
  | existing_name :: rest =>
      let similarity := fst (calculate_similarity new_name existing_name) in
      let scores := scores ++ [(existing_name, similarity)] in
      if Qltb best_similarity similarity
      then check_loop new_name rest (Some existing_name) similarity scores
      else check_loop new_name rest best_match best_similarity scores
  end.

Definition check_against_existing (new_name : str) (existing_topics : list (str * Z))
  : check_result :=
  match existing_topics with
  | [] => {| is_duplicate := false; similar_topic := None;
             similarity := 0%Q; all_scores := [] |}
  | _ =>
      let '(best_match, best_similarity, scores) :=
        check_loop new_name (map fst existing_topics) None 0%Q [] in
      let dup := Qle_bool similarity_threshold best_similarity in
      {| is_duplicate := dup;
         similar_topic := if dup then best_match else None;
         similarity := best_similarity;
         all_scores := scores |}
  end.

(** The inner loop of [find_duplicates_in_list], over
    [topic_names[i+1:]]. *)
Fixpoint gather (name1 : str) (later : list str) (group : list str)
         (processed : gset str) : list str * gset str :=
  match later with
  | [] => (group, processed)
  | name2 :: rest =>
      if bool_decide (name2 ∈ processed) then gather name1 rest group processed
      else if fst (fst (are_duplicates name1 name2))
      then gather name1 rest (group ++ [name2]) ({[name2]} ∪ processed)
      else gather name1 rest group processed
  end.

(** The outer loop, [for i, name1 in enumerate(topic_names)]. *)
Fixpoint groups_loop (topic_names : list str) (duplicate_groups : list (list str))
         (processed : gset str) : list (list str) :=
  match topic_names with
  | [] => duplicate_groups
  | name1 :: later =>
      if bool_decide (name1 ∈ processed)
      then groups_loop later duplicate_groups processed
      else
        let '(group, processed) := gather name1 later [name1] processed in
        if (1 <? length group)%nat
        then groups_loop later (duplicate_groups ++ [group]) ({[name1]} ∪ processed)
        else groups_loop later duplicate_groups processed
  end.

Definition find_duplicates_in_list (topics : list (str * Z)) : list (list str) :=
  groups_loop (map fst topics) [] ∅.
End Detector.

(** ** The topic registry of [TelegramBackupBot] *)

(** What [json.load] can produce. *)
#[warnings="-register-all"]
Inductive json :=
| JNull
| JBool (b : bool)
| JInt (z : Z)
| JFloat (q : Q)
| JString (s : str)
| JArray (items : list json)
| JObject (members : list (str * json)).

Inductive exn :=
| FileNotFoundError
| PermissionError
| UnicodeDecodeError
| JSONDecodeError
| AttributeError.

(** Outcome of [open(TOPICS_FILE)] followed by [json.load(f)]. *)
Inductive read_result :=
| ReadRaises (e : exn)
| ReadParsed (data : json).

Inductive result (A : Type) :=
| Returns (a : A)
| Raises (e : exn).
Arguments Returns {A} a.
Arguments Raises {A} e.

(** Truth value of a JSON datum, as [if data and ...] takes it. *)
Definition truthy (data : json) : bool :=
  match data with
  | JNull => false
  | JBool b => b
  | JInt z => negb (z =? 0)%Z
  | JFloat q => negb (Qeq_bool q 0)
  | JString s => match s with [] => false | _ => true end
  | JArray items => match items with [] => false | _ => true end
  | JObject members => match members with [] => false | _ => true end
  end.

(** [s.startswith(prefix)] *)
Fixpoint startswith (s prefix : str) : bool :=
  match prefix, s with
  | [], _ => true
  | p :: prefix', c :: s' => (c =? p) && startswith s' prefix'
  | _ :: _, [] => false
  end.

(** [TelegramBackupBot.load_topics]; only [FileNotFoundError] and
    [JSONDecodeError] are caught. *)
Definition load_topics (file : read_result) : result json :=
  match file with
  | ReadRaises FileNotFoundError | ReadRaises JSONDecodeError => Returns (JObject [])
  | ReadRaises e => Raises e
  | ReadParsed data =>
      if truthy data
      then match data with
           | JObject ((key, _) :: _) =>
               if startswith key (py "-") then Returns (JObject []) else Returns data
           | _ => Raises AttributeError       (* no [keys] on this value *)
           end
      else Returns data
  end.

(** The object [create_forum_topic] returns, by the attributes it has. *)
Record forum_topic := {
  message_thread_id : option Z;
  thread_id : option Z;
  id : option Z
}.

Inductive create_result :=
| CreateRaises
| CreateReturns (topic : forum_topic).

Record bot_state := {
  topics : list (str * Z);             (* self.topics, in insertion order *)
  topics_file : option (list (str * Z)); (* what TOPICS_FILE holds *)
  created : list str                   (* names passed to create_forum_topic *)
}.

(** [d[key] = value] on an insertion-ordered dict. *)
Fixpoint dict_set (d : list (str * Z)) (key : str) (value : Z) : list (str * Z) :=
  match d with
  | [] => [(key, value)]
  | (k, v) :: rest =>
      if str_eqb k key then (k, value) :: rest else (k, v) :: dict_set rest key value
  end.

Section Bot.
Variable U : UnicodeData.
(** The messaging platform: what [create_forum_topic] answers for a name. *)
Variable create_forum_topic : str -> create_result.
(** Whether writing [TOPICS_FILE] succeeds; a failure is logged and
    swallowed by [save_topics].  A failed write is one that fails at
    [os.makedirs] or [open], before the file is truncated; a write that
    breaks off later leaves a file this model does not describe, and
    nothing below is stated about the file after a failed write. *)
Variable write_ok : bool.

Definition save_topics (st : bot_state) : bot_state :=
  if write_ok
  then {| topics := topics st; topics_file := Some (topics st); created := created st |}
  else st.

(** The first entry whose normalised key equals [normalized_name]. *)
Definition find_topic (normalized_name : str) (ts : list (str * Z)) : option (str * Z) :=
  List.find (fun e => str_eqb (bot_normalize_topic_name U (fst e)) normalized_name) ts.

Definition get_or_create_topic (st : bot_state) (chat_id : Z) (source_name : str)
  : option Z * bot_state :=
  let normalized_name := bot_normalize_topic_name U source_name in
  match find_topic normalized_name (topics st) with
  | Some (_, thread_id) => (Some thread_id, st)
  | None =>
      let name := take 128 source_name in
      let st := {| topics := topics st; topics_file := topics_file st;
                   created := created st ++ [name] |} in
      match create_forum_topic name with
      | CreateRaises => (None, st)
      | CreateReturns topic =>
          let thread_id :=
            match message_thread_id topic, thread_id topic, id topic with
            | Some t, _, _ => Some t
            | None, Some t, _ => Some t
            | None, None, Some t => Some t
            | None, None, None => None
            end in
          match thread_id with
          | None => (None, st)
          | Some t =>
              let st := {| topics := dict_set (topics st) source_name t;
                           topics_file := topics_file st;
                           created := created st |} in
              (Some t, save_topics st)
          end
      end
  end.
End Bot.

(** ** The registry file between two runs *)

(** The value [json.load] gives for what [json.dump(self.topics, f)] wrote:
    an object with the same keys in the same order and the thread ids as
    integers. *)
Definition registry_json (d : list (str * Z)) : json :=
  JObject (map (fun e => (fst e, JInt (snd e))) d).

(** Reading [TOPICS_FILE] at the next start. *)
Definition read_topics_file (file : option (list (str * Z))) : read_result :=
  match file with
  | None => ReadRaises FileNotFoundError
  | Some d => ReadParsed (registry_json d)
  end.

(** ** The activity log and the counters of the dashboard *)

(** A file as [log_forwarded_media] meets it: [None] when [os.path.exists]
    says no, otherwise what [open] followed by [json.load] gives. *)
Definition file := option read_result.

(** What [open(..., 'w')] followed by [json.dump] does: it replaces the
    content, or it raises and leaves the file in the state [leaves]. *)
Inductive write_result :=
| Written
| WriteRaises (leaves : file).

Record log_files := {
  logs_file : file;      (* bot/activity_logs.json *)
  stats_file : file      (* bot/stats.json *)
}.

(** [d.get(key)], [d[key] = value] and [d.setdefault(key, default)] on an
    insertion-ordered dict with JSON values. *)
Fixpoint obj_get (d : list (str * json)) (key : str) : option json :=
  match d with
  | [] => None
  | (k, v) :: rest => if str_eqb k key then Some v else obj_get rest key
  end.

Fixpoint obj_set (d : list (str * json)) (key : str) (value : json) : list (str * json) :=
  match d with
  | [] => [(key, value)]
  | (k, v) :: rest =>
      if str_eqb k key then (k, value) :: rest else (k, v) :: obj_set rest key value
  end.

Definition setdefault (d : list (str * json)) (key : str) (default : json)
  : list (str * json) :=
  match obj_get d key with
  | Some _ => d
  | None => obj_set d key default
  end.

(** [x + 1]; [None] stands for the [TypeError] of a value that is not a
    number.  Floats are added exactly. *)
Definition add_one (x : json) : option json :=
  match x with
  | JInt z => Some (JInt (z + 1))
  | JBool b => Some (JInt (if b then 2 else 1))
  | JFloat q => Some (JFloat (q + 1))
  | _ => None
  end.

(** [d[key] += 1]; [None] for [KeyError] and [TypeError]. *)
Definition increment (d : list (str * json)) (key : str) : option (list (str * json)) :=
  v ← obj_get d key;
  v' ← add_one v;
  Some (obj_set d key v').

(** [l[-n:]] for a positive [n]. *)
Definition last_n {A} (n : nat) (l : list A) : list A :=
  skipn (length l - n) l.

Definition log_entry (timestamp source_topic media_type : str) (message_id : Z)
                     (status : str) : json :=
  JObject [(py "timestamp", JString timestamp);
           (py "source", JString source_topic);
           (py "media_type", JString media_type);
           (py "message_id", JInt message_id);
           (py "status", JString status)].

(** The list [logs] after the file was looked at; [None] when an exception
    other than [JSONDecodeError] leaves the [with] block. *)
Definition read_logs (f : file) : option (list json) :=
  match f with
  | None => Some []
  | Some (ReadParsed (JArray logs)) => Some logs
  | Some (ReadParsed _) => Some []
  | Some (ReadRaises JSONDecodeError) => Some []
  | Some (ReadRaises _) => None
  end.

Definition default_stats : list (str * json) :=
  [(py "total_messages", JInt 0);
   (py "today_messages", JInt 0);
   (py "week_messages", JInt 0);
   (py "topics", JObject [])].

(** The dict [stats] after the file was looked at. *)
Definition read_stats (f : file) : option (list (str * json)) :=
  match f with
  | None => Some default_stats
  | Some (ReadParsed (JObject stats)) => Some stats
  | Some (ReadParsed _) => Some []
  | Some (ReadRaises JSONDecodeError) => Some default_stats
  | Some (ReadRaises _) => None
  end.

(** The statements between the reading and the writing of [stats_file];
    [None] when one of them raises.  The dict under ["topics"] is updated
    in place, so [stats] sees the new count. *)
Definition update_stats (stats : list (str * json)) (source_topic : str)
  : option (list (str * json)) :=
  let stats := setdefault stats (py "total_messages") (JInt 0) in
  let stats := setdefault stats (py "today_messages") (JInt 0) in
  let stats := setdefault stats (py "week_messages") (JInt 0) in
  let stats := setdefault stats (py "topics") (JObject []) in
  stats ← increment stats (py "total_messages");
  stats ← increment stats (py "today_messages");
  stats ← increment stats (py "week_messages");
  match obj_get stats (py "topics") with
  | Some (JObject topics) =>
      let topics :=
        match obj_get topics source_topic with
        | None => obj_set topics source_topic (JInt 0)
        | Some _ => topics
        end in
      topics ← increment topics source_topic;
      Some (obj_set stats (py "topics") (JObject topics))
  | _ => None     (* no item assignment with a [str] index on this value *)
  end.

Section Logger.
(** [datetime.now().isoformat()] *)
Variable now : str.
(** What the two writes do. *)
Variable write_logs write_stats : write_result.

(** [log_forwarded_media]: every exception ends the call, after the
    effects it already had. *)
Definition log_forwarded_media (fs : log_files) (source_topic media_type : str)
                               (message_id : Z) (status : str) : log_files :=
  let log_entry := log_entry now source_topic media_type message_id status in
  match read_logs (logs_file fs) with
  | None => fs
  | Some logs =>
      let logs := last_n 1000 (logs ++ [log_entry]) in
      match write_logs with
      | WriteRaises leaves => {| logs_file := leaves; stats_file := stats_file fs |}
      | Written =>
          let fs := {| logs_file := Some (ReadParsed (JArray logs));
                       stats_file := stats_file fs |} in
          match read_stats (stats_file fs) with
          | None => fs
          | Some stats =>
              match update_stats stats source_topic with
              | None => fs
              | Some stats =>
                  match write_stats with
                  | WriteRaises leaves => {| logs_file := logs_file fs; stats_file := leaves |}
                  | Written => {| logs_file := logs_file fs;
                                  stats_file := Some (ReadParsed (JObject stats)) |}
                  end
              end
          end
      end
  end.
End Logger.

(** ** Relaying a message: [has_media], [forward_media], [process_media] *)

(** What the bot reads of an attachment. *)
Record attachment := {
  file_id : str;
  file_name : option str            (* read for documents only *)
}.

Record chat_info := {
  chat_id : Z;
  title : option str;
  first_name : option str;
  chat_type : str
}.

Record message := {
  message_id : Z;
  chat : chat_info;
  caption : option str;
  from_user : option bool;          (* [is_bot] of the sender, when there is one *)
  forward_from : bool;              (* there is a user it was forwarded from *)
  forward_from_chat : option Z;     (* [id] of the chat it was forwarded from *)
  photo : list attachment;          (* the sizes; empty when there is no photo *)
  video : option attachment;
  document : option attachment;
  audio : option attachment;
  voice : option attachment;
  video_note : option attachment;
  sticker : option attachment;
  animation : option attachment
}.

Inductive media_kind :=
| Photo | Video | Document | Audio | Voice | VideoNote | Animation.

(** The calls made to the messaging platform.  [get_file] stands for
    [get_file] followed by [download_file]; [send] for [send_photo],
    [send_video] and so on, the upload being the temporary file with its
    suffix. *)
Inductive api_call :=
| copy_message (to from_chat message thread : Z) (text : option str)
| get_file (file : str)
| send (kind : media_kind) (to thread : Z) (text : option str)
       (suffix : str) (content : list N).

(** What [copy_message] does: it returns, or it raises; [handler_raises]
    tells whether the handler of the exception (which looks up the retry
    delay of a rate limit) raises in turn. *)
Inductive copy_result :=
| Copied
| CopyRaises (handler_raises : bool).

Record world := {
  bot : bot_state;                    (* the registry, in memory and on disk *)
  files : log_files;                  (* the activity log and the statistics *)
  calls : list (api_call * bool)      (* the calls made, with whether they returned *)
}.

(** Truth value of an attribute that holds an object or [None]. *)
Definition present {A} (o : option A) : bool :=
  match o with Some _ => true | None => false end.

Definition has_photo (message : message) : bool :=
  match photo message with [] => false | _ :: _ => true end.

(** [str(n)] *)
Definition str_of_Z (n : Z) : str := py (NilZero.string_of_int (Z.to_int n)).

(** [a or b] on an optional string and a string. *)
Definition str_or (a : option str) (b : str) : str :=
  match a with
  | Some (c :: s) => c :: s
  | _ => b
  end.

Definition IGNORED_CHAT_IDS : list Z := [-100000000000]%Z.

(** The name of the topic a message goes to:
    [title or first_name or f"Chat_{id}"] of its chat. *)
Definition source_name_of (message : message) : str :=
  let source_chat := chat message in
  str_or (title source_chat)
         (str_or (first_name source_chat)
                 (py "Chat_" ++ str_of_Z (chat_id source_chat))).

(** [bool(message.forward_from or message.forward_from_chat)] *)
Definition is_forwarded (message : message) : bool :=
  forward_from message || present (forward_from_chat message).

(** [TelegramBackupBot.has_media] *)
Definition has_media (message : message) : bool :=
  has_photo message || present (video message) || present (document message)
  || present (audio message) || present (voice message) || present (video_note message)
  || present (sticker message) || present (animation message).

(** The [media_type] passed to the logger after a delivery. *)
Definition media_type (message : message) : str :=
  if has_photo message then py "photo"
  else if present (video message) then py "video"
  else if present (document message) then py "document"
  else if present (audio message) then py "audio"
  else if present (voice message) then py "voice"
  else if present (video_note message) then py "video_note"
  else if present (sticker message) then py "sticker"
  else if present (animation message) then py "animation"
  else py "unknown".

(** The file the manual resend downloads; [None] is the branch
    "Unsupported media type". *)
Definition fallback_file_id (message : message) : option str :=
  match photo message with
  | p :: sizes => Some (file_id (List.last sizes p))
  | [] =>
      match video message, document message, audio message, voice message,
            video_note message, animation message with
      | Some a, _, _, _, _, _
      | None, Some a, _, _, _, _
      | None, None, Some a, _, _, _
      | None, None, None, Some a, _, _
      | None, None, None, None, Some a, _
      | None, None, None, None, None, Some a => Some (file_id a)
      | None, None, None, None, None, None => None
      end
  end.

Section Relay.
Variable U : UnicodeData.
Variable BACKUP_GROUP_ID : Z.
(** The messaging platform. *)
Variable create_forum_topic : str -> create_result.
Variable copy : copy_result.
Variable download : str -> option (list N).    (* [None]: one of the two calls raises *)
Variable send_ok : bool.
(** The file system: the registry file, the temporary file, the two
    files of the logger. *)
Variable write_ok : bool.
Variable tmp_ok : bool.       (* the temporary file is created, written and reopened *)
Variable unlink_ok : bool.
Variable now : str.
Variable write_logs write_stats : write_result.
(** [os.path.splitext(name)[1]] *)
Variable splitext_ext : str -> str.

Definition called (w : world) (c : api_call) (returned : bool) : world :=
  {| bot := bot w; files := files w; calls := calls w ++ [(c, returned)] |}.

Definition logged (w : world) (source_topic media_type : str) (message_id : Z)
                  (status : str) : world :=
  {| bot := bot w;
     files := log_forwarded_media now write_logs write_stats (files w)
                                  source_topic media_type message_id status;
     calls := calls w |}.

(** The suffix of the temporary file. *)
Definition suffix_of (message : message) : str :=
  if has_photo message then py ".jpg"
  else if present (video message) || present (video_note message) then py ".mp4"
  else if present (audio message) then py ".mp3"
  else if present (voice message) then py ".ogg"
  else if present (animation message) then py ".gif"
  else match document message with
       | Some d =>
           match file_name d with
           | Some (c :: name) =>
               match splitext_ext (c :: name) with
               | [] => py ".bin"
               | e :: ext => e :: ext
               end
           | _ => py ".bin"
           end
       | None => py ".bin"
       end.

(** The [send_...] call of the manual resend; the voice and video-note
    calls are made without a caption. *)
Definition send_call (message : message) (topic_id : Z) (original_caption : option str)
                     (suffix : str) (content : list N) : option api_call :=
  if has_photo message
  then Some (send Photo BACKUP_GROUP_ID topic_id original_caption suffix content)
  else if present (video message)
  then Some (send Video BACKUP_GROUP_ID topic_id original_caption suffix content)
  else if present (document message)
  then Some (send Document BACKUP_GROUP_ID topic_id original_caption suffix content)
  else if present (audio message)
  then Some (send Audio BACKUP_GROUP_ID topic_id original_caption suffix content)
  else if present (voice message)
  then Some (send Voice BACKUP_GROUP_ID topic_id None suffix content)
  else if present (video_note message)
  then Some (send VideoNote BACKUP_GROUP_ID topic_id None suffix content)
  else if present (animation message)
  then Some (send Animation BACKUP_GROUP_ID topic_id original_caption suffix content)
  else None.

(** The second [try] block of [forward_media]: download, size check,
    temporary file, resend, removal of the temporary file, log.  Every
    exception ends it with [False]. *)
Definition manual_resend (w : world) (message : message) (topic_id : Z)
                         (source_name : str) : bool * world :=
  match fallback_file_id message with
  | None => (false, w)
  | Some file_id =>
      match download file_id with
      | None => (false, called w (get_file file_id) false)
      | Some downloaded_file =>
          let w := called w (get_file file_id) true in
          let actual_size := length downloaded_file in
          if (actual_size =? 0)%nat || (actual_size <? 100)%nat then (false, w)
          else if negb tmp_ok then (false, w)
          else
            let resent :=
              match send_call message topic_id (caption message) (suffix_of message)
                              downloaded_file with
              | None => (true, w)
              | Some c => (send_ok, called w c send_ok)
              end in
            if negb (fst resent) then (false, snd resent)
            else if negb unlink_ok then (false, snd resent)
            else (true, logged (snd resent) source_name (media_type message)
                               (message_id message) (py "success"))
      end
  end.

(** [TelegramBackupBot.forward_media] *)
Definition forward_media (w : world) (message : message) : bool * world :=
  let source_chat := chat message in
  let source_name := source_name_of message in
  let (topic, st) := get_or_create_topic U create_forum_topic write_ok (bot w)
                                         (chat_id source_chat) source_name in
  let w := {| bot := st; files := files w; calls := calls w |} in
  match topic with
  | None => (false, w)
  | Some topic_id =>
      if is_forwarded message then manual_resend w message topic_id source_name
      else
        let c := copy_message BACKUP_GROUP_ID (chat_id (chat message)) (message_id message)
                              topic_id (caption message) in
        match copy with
        | Copied =>
            (true, logged (called w c true) source_name (media_type message)
                          (message_id message) (py "success"))
        | CopyRaises true =>
            (false, logged (called w c false) source_name (py "unknown")
                           (message_id message) (py "failed"))
        | CopyRaises false => manual_resend (called w c false) message topic_id source_name
        end
  end.

(** [process_media], the function both handlers call. *)
Definition process_media (w : world) (message : message) : world :=
  if match from_user message with Some is_bot => is_bot | None => false end then w
  else if match forward_from_chat message with
          | Some original_chat_id => bool_decide (original_chat_id ∈ IGNORED_CHAT_IDS)
          | None => false
          end then w
  else if negb (bool_decide (chat_type (chat message)
                               ∈ [py "group"; py "supergroup"; py "channel"])) then w
  else if bool_decide (chat_id (chat message) ∈ IGNORED_CHAT_IDS) then w
  else if (chat_id (chat message) =? BACKUP_GROUP_ID)%Z then w
  else if negb (has_media message) then w
  else snd (forward_media w message).
End Relay.

(** * Predicates of the statements *)

(** [tidy after_space s]: every character of [s] is a word character or
    the blank U+0020, no two blanks are adjacent and, when [after_space]
    holds, [s] does not begin with a blank. *)
Fixpoint tidy (after_space : bool) (s : str) : bool :=
  match s with
  | [] => true
  | c :: t =>
      if c =? 32 then negb after_space && tidy true t
      else is_word c && tidy false t
  end.

(** Every character is in the class [[\w\s]]. *)
Definition word_or_space (s : str) : bool :=
  forallb (fun c => is_word c || is_space c) s.

(** What both normalisers deliver: word characters and single blanks, no
    blank at either end, no upper-case letter. *)
Record canonical (s : str) : Prop := {
  canon_tidy : tidy true s = true;
  canon_lower : forallb (fun c => negb (is_upper c)) s = true;
  canon_rstrip : rstrip s = s
}.

(** The characters a canonical form can hold: [a-z], [0-9], the
    underscore and the blank. *)
Definition canon_char (c : N) : bool :=
  is_lower c || is_digit c || (c =? 95) || (c =? 32).

(** The alphabet the design document gives for canonical forms,
    [^[a-z0-9 ]*$]. *)
Definition spec_char (c : N) : bool := is_lower c || is_digit c || (c =? 32).

(** The Jaccard index of two keyword sets as the design document defines
    it: [|intersection| / |union|], and 0 if either set is empty. *)
Definition jaccard_index (A B : gset str) : Q :=
  if decide (A = ∅ \/ B = ∅) then 0%Q
  else (inject_Z (Z.of_nat (size (A ∩ B))) / inject_Z (Z.of_nat (size (A ∪ B))))%Q.

(** No key of [ts] has the canonical form of [name]. *)
Definition unmatched (U : UnicodeData) (name : str) (ts : list (str * Z)) : Prop :=
  Forall (fun e => bot_normalize_topic_name U (fst e) <> bot_normalize_topic_name U name) ts.

(** The platform of the examples: every creation succeeds with thread 202. *)
Definition thread_202 (name : str) : create_result :=
  CreateReturns {| message_thread_id := Some 202%Z; thread_id := None; id := None |}.

(** The block [m] lies in the range [alo..ahi] of [a]. *)
Definition block_within (alo ahi : nat) (m : nat * nat * nat) : Prop :=
  (alo <= fst (fst m) /\ fst (fst m) + snd m <= ahi)%nat.

Definition lengths_upto (n : nat) (j2len : list (nat * nat)) : Prop :=
  Forall (fun e => (snd e <= n)%nat) j2len.

(** Rounds that a queue may still need. *)
Definition rounds (queue : list (nat * nat * nat * nat)) : nat :=
  fold_right (fun e n => (2 * (snd (fst (fst e)) - fst (fst (fst e))) + 1 + n)%nat) O queue.

Definition ranges_ok (queue : list (nat * nat * nat * nat)) : Prop :=
  Forall (fun e => (fst (fst (fst e)) <= snd (fst (fst e)))%nat) queue.

(** The block [m] lies in the range [alo..ahi] of [a] and in the range
    [blo..bhi] of [b]. *)
Definition block_inside (alo ahi blo bhi : nat) (m : nat * nat * nat) : Prop :=
  (alo <= fst (fst m) /\ fst (fst m) + snd m <= ahi
   /\ blo <= snd (fst m) /\ snd (fst m) + snd m <= bhi)%nat.

(** Row [i] of [j2len]: the run that ends at [a[i]], [b[j]] fits in both
    ranges. *)
Definition runs_fit (alo blo i : nat) (j2len : list (nat * nat)) : Prop :=
  Forall (fun e => (snd e + alo <= i + 1 /\ blo <= fst e /\ snd e + blo <= fst e + 1)%nat) j2len.

Definition queue_ok (queue : list (nat * nat * nat * nat)) : Prop :=
  Forall (fun e => (fst (fst (fst e)) <= snd (fst (fst e))
                    /\ snd (fst e) <= snd e)%nat) queue.

(** Characters of [a], and of [b], that the ranges of a queue hold. *)
Definition span_a (queue : list (nat * nat * nat * nat)) : nat :=
  fold_right (fun e n => (snd (fst (fst e)) - fst (fst (fst e)) + n)%nat) O queue.

Definition span_b (queue : list (nat * nat * nat * nat)) : nat :=
  fold_right (fun e n => (snd e - snd (fst e) + n)%nat) O queue.

(** [sum(triple[-1] for triple in blocks)] *)
Definition total_size (blocks : list (nat * nat * nat)) : nat :=
  fold_left (fun acc t => (acc + snd t)%nat) blocks O.

(** The verdict of [are_duplicates] alone. *)
Definition duplicate_of (U : UnicodeData) (threshold : Q) (name1 name2 : str) : bool :=
  fst (fst (are_duplicates U threshold name1 name2)).

(** A cluster as [find_duplicates_in_list] builds it: a first name and at
    least one later name, in the order of [names], each later name a
    duplicate of the first. *)
Definition cluster_of (U : UnicodeData) (threshold : Q) (names group : list str) : Prop :=
  exists head members,
    group = head :: members /\ members <> []
    /\ sublist group names
    /\ Forall (fun m => duplicate_of U threshold head m = true) members.

(** The names [gather] picks for [name1] out of the later names. *)
Definition picked (U : UnicodeData) (threshold : Q) (name1 : str) (later : list str)
           (processed : gset str) : list str :=
  List.filter (fun name2 => negb (bool_decide (name2 ∈ processed))
                            && duplicate_of U threshold name1 name2) later.

(** The first key of a registry begins with a dash. *)
Definition dash_first (d : list (str * Z)) : bool :=
  match d with
  | (key, _) :: _ => startswith key (py "-")
  | [] => false
  end.

(** The count a dict holds under [key], a missing key counting for 0;
    [None] when the value is not an integer. *)
Definition counter (d : list (str * json)) (key : str) : option Z :=
  match obj_get d key with
  | None => Some 0%Z
  | Some (JInt z) => Some z
  | Some _ => None
  end.

(** The per-topic counts of a statistics dict, a missing ["topics"]
    counting for the empty dict. *)
Definition topic_counts (d : list (str * json)) : option (list (str * json)) :=
  match obj_get d (py "topics") with
  | None => Some []
  | Some (JObject t) => Some t
  | Some _ => None
  end.

(** A value [+= 1] accepts, or no value yet. *)
Definition countable (v : option json) : bool :=
  match v with
  | None | Some (JInt _) | Some (JBool _) | Some (JFloat _) => true
  | Some _ => false
  end.

(** The statistics dict can take one more message of [source_topic]. *)
Definition stats_usable (d : list (str * json)) (source_topic : str) : bool :=
  countable (obj_get d (py "total_messages"))
  && countable (obj_get d (py "today_messages"))
  && countable (obj_get d (py "week_messages"))
  && match obj_get d (py "topics") with
     | None => true
     | Some (JObject t) => countable (obj_get t source_topic)
     | Some _ => false
     end.

(** The calls that put a message in a chat: destination, thread and
    caption of a call that returned. *)
Definition delivery (e : api_call * bool) : option (Z * Z * option str) :=
  match e with
  | (copy_message to _ _ thread text, true) => Some (to, thread, text)
  | (send _ to thread text _ _, true) => Some (to, thread, text)
  | _ => None
  end.

Definition deliveries (l : list (api_call * bool)) : list (Z * Z * option str) :=
  omap delivery l.

Definition is_copy (c : api_call) : bool :=
  match c with copy_message _ _ _ _ _ => true | _ => false end.

(** A sticker and no other media. *)
Definition sticker_only (m : message) : bool :=
  present (sticker m) && negb (has_photo m) && negb (present (video m))
  && negb (present (document m)) && negb (present (audio m)) && negb (present (voice m))
  && negb (present (video_note m)) && negb (present (animation m)).

(** What a call for message [m] in thread [thread] looks like: the copy
    is the copy of [m] with its caption; an upload goes to the same place,
    has at least 100 bytes, and carries the caption of [m], or none for a
    voice message or a video note. *)
Definition call_for (backup thread : Z) (m : message) (c : api_call) : Prop :=
  match c with
  | copy_message to from_chat message thread' text =>
      to = backup /\ from_chat = chat_id (chat m) /\ message = message_id m
      /\ thread' = thread /\ text = caption m
  | get_file file => fallback_file_id m = Some file
  | send kind to thread' text _ content =>
      to = backup /\ thread' = thread /\ (100 <= length content)%nat
      /\ text = match kind with
                | Voice | VideoNote => None
                | _ => caption m
                end
  end.

(** The messages [process_media] hands on. *)
Definition accepted (backup : Z) (m : message) : Prop :=
  from_user m <> Some true
  /\ (forall c, forward_from_chat m = Some c -> c ∉ IGNORED_CHAT_IDS)
  /\ (chat_type (chat m) ∈ [py "group"; py "supergroup"; py "channel"])
  /\ (chat_id (chat m) ∉ IGNORED_CHAT_IDS)
  /\ chat_id (chat m) <> backup
  /\ has_media m = true.

(** ** Sample messages *)

(** A sticker forwarded from a user into the group [Memes], and a voice
    message with a caption posted there. *)
Definition forwarded_sticker : message :=
  {| message_id := 31;
     chat := {| chat_id := -1001234; title := Some (py "Memes"); first_name := None;
                chat_type := py "supergroup" |};
     caption := None; from_user := Some false; forward_from := true;
     forward_from_chat := None; photo := []; video := None; document := None;
     audio := None; voice := None; video_note := None;
     sticker := Some {| file_id := py "st-1"; file_name := None |}; animation := None |}.

Definition captioned_voice : message :=
  {| message_id := 32;
     chat := {| chat_id := -1001234; title := Some (py "Memes"); first_name := None;
                chat_type := py "supergroup" |};
     caption := Some (py "listen"); from_user := Some false; forward_from := false;
     forward_from_chat := None; photo := []; video := None; document := None;
     audio := None; voice := Some {| file_id := py "vc-1"; file_name := None |};
     video_note := None; sticker := None; animation := None |}.

Definition fresh_world : world :=
  {| bot := {| topics := []; topics_file := None; created := [] |};
     files := {| logs_file := None; stats_file := None |};
     calls := [] |}.

Definition memes_world : world :=
  {| bot := {| topics := [(py "Memes", 7%Z)]; topics_file := Some [(py "Memes", 7%Z)];
               created := [] |};
     files := {| logs_file := None; stats_file := None |};
     calls := [] |}.

(** ** The score in the words of the design document *)

(** The tokens of a canonical form: its maximal runs of characters other
    than the blank. *)
Fixpoint spec_tokens_from (word : str) (s : str) : list str :=
  match s with
  | [] => match word with [] => [] | _ => [word] end
  | c :: rest =>
      if c =? 32
      then match word with
           | [] => spec_tokens_from [] rest
           | _ => word :: spec_tokens_from [] rest
           end
      else spec_tokens_from (word ++ [c]) rest
  end.

Definition spec_tokens (s : str) : list str := spec_tokens_from [] s.

(** The fixed stop-word list; the design document quotes eight of the
    thirteen words. *)
Definition spec_stop_list : list str :=
  [py "channel"; py "group"; py "chat"; py "oficial"; py "official"; py "vip";
   py "premium"; py "new"; py "novo"; py "nova"; py "the"; py "a"; py "an"].

(** KeywordSet: "set of tokens from CanonicalForm with length >= 2,
    excluding a fixed stop-word list". *)
Definition spec_keyword_set (U : UnicodeData) (name : str) : gset str :=
  list_to_set
    (List.filter (fun token => (2 <=? length token)%nat
                               && negb (bool_decide (token ∈ spec_stop_list)))
                 (spec_tokens (normalize_topic_name U name))).

(** "its best sequence-similarity match against any token in B's word
    list": the greatest ratio, 0 when B has no token. *)
Definition spec_best_match (token : str) (others : list str) : Q :=
  fold_right (fun other best =>
                if Qle_bool best (SequenceMatcher.ratio token other)
                then SequenceMatcher.ratio token other else best)
             0%Q others.

(** token_similarity: "for every token in A's word list, find its best
    sequence-similarity match against any token in B's word list, and
    symmetrically for every token in B against A; average all these
    best-match scores together"; 0 when there is no token at all. *)
Definition spec_token_similarity (A B : list str) : Q :=
  let total :=
    (fold_right (fun a acc => spec_best_match a B + acc) 0 A
     + fold_right (fun b acc => spec_best_match b A + acc) 0 B)%Q in
  match (length A + length B)%nat with
  | O => 0%Q
  | S n => (total / inject_Z (Z.of_nat (S n)))%Q
  end.

(** * Properties *)

(** ** Character classes *)

Ltac unfold_classes :=
  unfold is_word, is_space, is_digit, is_upper, is_lower, is_ascii, lower_char in *.

(** Turns boolean comparisons on code points into linear arithmetic. *)
Ltac char_arith :=
  unfold_classes;
  repeat match goal with
         | |- _ = false => apply not_true_iff_false; intro
         | H : _ = false |- _ => apply not_true_iff_false in H
         end;
  repeat (progress rewrite ?andb_true_iff, ?orb_true_iff, ?N.leb_le, ?N.ltb_lt,
                            ?N.eqb_eq in * );
  try lia.

Lemma is_space_32 : is_space 32 = true.
Proof. reflexivity. Qed.

Lemma word_not_space c : is_word c = true -> is_space c = false.
Proof. intros H. char_arith. Qed.

Lemma word_is_ascii c : is_word c = true -> is_ascii c = true.
Proof. intros H. char_arith. Qed.

Lemma word_not_32 c : is_word c = true -> (c =? 32) = false.
Proof. intros H. char_arith. Qed.

Lemma lower_char_space c : is_space (lower_char c) = is_space c.
Proof.
  unfold lower_char. destruct (is_upper c) eqn:E; [|reflexivity].
  assert (is_space c = false) as -> by char_arith.
  char_arith.
Qed.

Lemma lower_char_32 c : (lower_char c =? 32) = (c =? 32).
Proof.
  unfold lower_char. destruct (is_upper c) eqn:E; [|reflexivity].
  assert ((c =? 32) = false) as -> by char_arith.
  char_arith.
Qed.

Lemma lower_char_word c : is_word c = true -> is_word (lower_char c) = true.
Proof.
  intros H. unfold lower_char. destruct (is_upper c) eqn:E; [|exact H].
  char_arith.
Qed.

Lemma lower_char_not_upper c : is_upper (lower_char c) = false.
Proof.
  unfold lower_char. destruct (is_upper c) eqn:E; [|exact E].
  char_arith.
Qed.

Lemma lower_char_fixed c : is_upper c = false -> lower_char c = c.
Proof. intros H. unfold lower_char. now rewrite H. Qed.

(** ** Stripping and lowering *)

Lemma lstrip_idem s : lstrip (lstrip s) = lstrip s.
Proof.
  induction s as [|c t IH]; simpl; [reflexivity|].
  destruct (is_space c) eqn:E; [exact IH|]. simpl. now rewrite E.
Qed.

Lemma rstrip_idem s : rstrip (rstrip s) = rstrip s.
Proof. unfold rstrip. now rewrite rev_involutive, lstrip_idem. Qed.

Lemma lstrip_snoc s c :
  lstrip (s ++ [c]) =
  match lstrip s with
  | [] => if is_space c then [] else [c]
  | r => r ++ [c]
  end.
Proof.
  induction s as [|d t IH]; simpl; [reflexivity|].
  destruct (is_space d); [exact IH | reflexivity].
Qed.

(** [rstrip] read from the front. *)
Lemma rstrip_cons c t :
  rstrip (c :: t) =
  match rstrip t with
  | [] => if is_space c then [] else [c]
  | r => c :: r
  end.
Proof.
  unfold rstrip. simpl rev. rewrite lstrip_snoc.
  destruct (lstrip (rev t)) as [|d r] eqn:E; simpl.
  - now destruct (is_space c).
  - rewrite rev_app_distr. simpl.
    destruct (rev r ++ [d]) eqn:E'; [now destruct (rev r)|reflexivity].
Qed.

Lemma rstrip_snoc s c :
  rstrip (s ++ [c]) = if is_space c then rstrip s else s ++ [c].
Proof.
  unfold rstrip. rewrite rev_app_distr. simpl.
  destruct (is_space c); [reflexivity|]. simpl. now rewrite rev_involutive.
Qed.

Lemma rstrip_length s : (length (rstrip s) <= length s)%nat.
Proof.
  induction s as [|c t IH]; [simpl; lia|].
  rewrite rstrip_cons. destruct (rstrip t); [destruct (is_space c)|]; simpl in *; lia.
Qed.

Lemma lstrip_lower s : lstrip (lower s) = lower (lstrip s).
Proof.
  induction s as [|c t IH]; simpl; [reflexivity|].
  rewrite lower_char_space. now destruct (is_space c).
Qed.

Lemma lower_rev s : lower (rev s) = rev (lower s).
Proof. unfold lower. now rewrite map_rev. Qed.

Lemma rstrip_lower s : rstrip (lower s) = lower (rstrip s).
Proof. unfold rstrip. now rewrite <- lower_rev, lstrip_lower, lower_rev. Qed.

Lemma sub_punct_word_or_space s : word_or_space (sub_punct s) = true.
Proof.
  unfold word_or_space, sub_punct. induction s as [|c t IH]; simpl; [reflexivity|].
  rewrite IH, andb_true_r.
  destruct (is_word c || is_space c) eqn:E; [exact E|reflexivity].
Qed.

Lemma sub_runs_tidy b s :
  word_or_space s = true -> tidy b (sub_runs b s) = true.
Proof.
  unfold word_or_space. revert b.
  induction s as [|c t IH]; intros b H; simpl in *; [reflexivity|].
  apply andb_true_iff in H as [Hc Ht].
  destruct (is_space c) eqn:E.
  - destruct b; simpl; [now apply IH|]. now apply IH.
  - rewrite orb_false_r in Hc. simpl.
    rewrite (word_not_32 _ Hc), Hc. now apply IH.
Qed.

Lemma tidy_weaken b s : tidy true s = true -> tidy b s = true.
Proof.
  destruct s as [|c t]; simpl; [reflexivity|].
  destruct (c =? 32); [discriminate|]. now destruct b.
Qed.

Lemma tidy_lstrip_fixed s : tidy true s = true -> lstrip s = s.
Proof.
  destruct s as [|c t]; simpl; [reflexivity|].
  destruct (c =? 32) eqn:E; [discriminate|]. intros H.
  apply andb_true_iff in H as [Hc _]. now rewrite (word_not_space _ Hc).
Qed.

Lemma tidy_lstrip b s : tidy b s = true -> tidy true (lstrip s) = true.
Proof.
  destruct s as [|c t]; simpl; [reflexivity|].
  destruct (c =? 32) eqn:E; intros H.
  - apply N.eqb_eq in E. subst c. simpl.
    apply andb_true_iff in H as [_ Ht]. now rewrite (tidy_lstrip_fixed _ Ht).
  - apply andb_true_iff in H as [Hc Ht].
    rewrite (word_not_space _ Hc). simpl. now rewrite E, Hc.
Qed.

Lemma tidy_rstrip b s : tidy b s = true -> tidy b (rstrip s) = true.
Proof.
  revert b. induction s as [|c t IH]; intros b H; [reflexivity|].
  rewrite rstrip_cons. simpl in H.
  destruct (c =? 32) eqn:E.
  - apply N.eqb_eq in E. subst c.
    apply andb_true_iff in H as [Hb Ht]. specialize (IH _ Ht).
    destruct (rstrip t) eqn:R; [reflexivity|].
    simpl tidy at 1. simpl. now rewrite Hb.
  - apply andb_true_iff in H as [Hc Ht]. specialize (IH _ Ht).
    destruct (rstrip t) eqn:R.
    + rewrite (word_not_space _ Hc). simpl. now rewrite E, Hc.
    + change (tidy b (c :: n :: l)) with
        (if c =? 32 then negb b && tidy true (n :: l) else is_word c && tidy false (n :: l)).
      now rewrite E, Hc.
Qed.

Lemma tidy_lower b s : tidy b s = true -> tidy b (lower s) = true.
Proof.
  revert b. induction s as [|c t IH]; intros b H; simpl in *; [reflexivity|].
  rewrite lower_char_32. destruct (c =? 32).
  - apply andb_true_iff in H as [Hb Ht]. rewrite Hb. now apply IH.
  - apply andb_true_iff in H as [Hc Ht]. rewrite (lower_char_word _ Hc). now apply IH.
Qed.

Lemma tidy_sub_runs_fixed b b' s :
  tidy b s = true -> (b' = true -> b = true) -> sub_runs b' s = s.
Proof.
  revert b b'. induction s as [|c t IH]; intros b b' H Hb; simpl in *; [reflexivity|].
  destruct (c =? 32) eqn:E.
  - apply N.eqb_eq in E. subst c. rewrite is_space_32.
    apply andb_true_iff in H as [Hn Ht].
    destruct b'; [rewrite (Hb eq_refl) in Hn; discriminate|].
    f_equal. now apply (IH true true).
  - apply andb_true_iff in H as [Hc Ht]. rewrite (word_not_space _ Hc).
    f_equal. apply (IH false false Ht). discriminate.
Qed.

Lemma tidy_sub_punct_fixed b s : tidy b s = true -> sub_punct s = s.
Proof.
  unfold sub_punct. revert b.
  induction s as [|c t IH]; intros b H; simpl in *; [reflexivity|].
  destruct (c =? 32) eqn:E.
  - apply N.eqb_eq in E. subst c. apply andb_true_iff in H as [_ Ht].
    simpl. f_equal. now apply (IH true).
  - apply andb_true_iff in H as [Hc Ht]. rewrite Hc. simpl.
    f_equal. now apply (IH false).
Qed.

Lemma tidy_ascii b s : tidy b s = true -> forallb is_ascii s = true.
Proof.
  revert b. induction s as [|c t IH]; intros b H; simpl in *; [reflexivity|].
  destruct (c =? 32) eqn:E.
  - apply N.eqb_eq in E. subst c. apply andb_true_iff in H as [_ Ht].
    simpl. now apply (IH true).
  - apply andb_true_iff in H as [Hc Ht]. rewrite (word_is_ascii _ Hc).
    simpl. now apply (IH false).
Qed.

Lemma ascii_only_fixed s : forallb is_ascii s = true -> ascii_only s = s.
Proof.
  unfold ascii_only. induction s as [|c t IH]; simpl; [reflexivity|].
  intros H. apply andb_true_iff in H as [Hc Ht]. rewrite Hc. f_equal. now apply IH.
Qed.

Lemma ascii_only_is_ascii s : forallb is_ascii (ascii_only s) = true.
Proof.
  unfold ascii_only. induction s as [|c t IH]; simpl; [reflexivity|].
  rewrite IH, andb_true_r. now destruct (is_ascii c) eqn:E.
Qed.

Lemma lower_no_upper s : forallb (fun c => negb (is_upper c)) (lower s) = true.
Proof.
  unfold lower. induction s as [|c t IH]; simpl; [reflexivity|].
  now rewrite lower_char_not_upper, IH.
Qed.

Lemma lower_fixed s : forallb (fun c => negb (is_upper c)) s = true -> lower s = s.
Proof.
  unfold lower. induction s as [|c t IH]; simpl; [reflexivity|].
  intros H. apply andb_true_iff in H as [Hc Ht].
  apply negb_true_iff in Hc. rewrite (lower_char_fixed _ Hc). f_equal. now apply IH.
Qed.

(** ** Canonical forms *)

Lemma stripped_runs_tidy y :
  let z := rstrip (lstrip (sub_runs false (sub_punct y))) in
  tidy true z = true /\ rstrip z = z.
Proof.
  simpl. split; [|apply rstrip_idem].
  apply tidy_rstrip, (tidy_lstrip false), sub_runs_tidy, sub_punct_word_or_space.
Qed.

Lemma lower_canonical z :
  tidy true z = true -> rstrip z = z -> canonical (lower z).
Proof.
  intros Ht Hr. split.
  - now apply tidy_lower.
  - apply lower_no_upper.
  - now rewrite rstrip_lower, Hr.
Qed.

Lemma canonical_strip_fixed s : canonical s -> strip s = s.
Proof.
  intros [Ht _ Hr]. unfold strip. now rewrite (tidy_lstrip_fixed _ Ht).
Qed.

Section NormalizerFacts.
Variable U : UnicodeData.

Lemma normalize_canonical x : canonical (normalize_topic_name U x).
Proof.
  destruct x as [|c t]; [now split|].
  unfold normalize_topic_name.
  set (y := ascii_only _). cbn [fold_left cleanup_patterns re_sub]. unfold sub_edges.
  destruct (stripped_runs_tidy y) as [Ht Hr].
  pose proof (lower_canonical _ Ht Hr) as Hc.
  now rewrite (canonical_strip_fixed _ Hc).
Qed.

Lemma bot_normalize_canonical x : canonical (bot_normalize_topic_name U x).
Proof.
  destruct x as [|c t]; [now split|].
  unfold bot_normalize_topic_name, strip.
  set (y := ascii_only _).
  destruct (stripped_runs_tidy y) as [Ht Hr].
  now apply lower_canonical.
Qed.

Hypothesis laws : UnicodeAsciiLaws U.

Lemma strip_marks_ascii s : forallb is_ascii s = true -> strip_marks U s = s.
Proof.
  unfold strip_marks. induction s as [|c t IH]; simpl; [reflexivity|].
  intros H. apply andb_true_iff in H as [Hc Ht].
  rewrite (Mn_not_ascii U laws c Hc). simpl. f_equal. now apply IH.
Qed.

Lemma canonical_normalize_fixed s : canonical s -> normalize_topic_name U s = s.
Proof.
  intros Hc. pose proof Hc as [Ht Hl Hr].
  destruct s as [|c t]; [reflexivity|].
  unfold normalize_topic_name.
  pose proof (tidy_ascii _ _ Ht) as Ha.
  rewrite (nfd_ascii U laws _ Ha), (strip_marks_ascii _ Ha), (nfc_ascii U laws _ Ha),
    (ascii_only_fixed _ Ha).
  cbn [fold_left cleanup_patterns re_sub]. unfold sub_edges.
  rewrite (tidy_sub_punct_fixed _ _ Ht).
  rewrite (tidy_sub_runs_fixed true false _ Ht) by discriminate.
  rewrite (tidy_lstrip_fixed _ Ht), Hr, (lower_fixed _ Hl).
  now apply canonical_strip_fixed.
Qed.

Lemma canonical_bot_normalize_fixed s : canonical s -> bot_normalize_topic_name U s = s.
Proof.
  intros Hc. pose proof Hc as [Ht Hl Hr].
  destruct s as [|c t]; [reflexivity|].
  unfold bot_normalize_topic_name.
  pose proof (tidy_ascii _ _ Ht) as Ha.
  rewrite (nfd_ascii U laws _ Ha), (strip_marks_ascii _ Ha), (ascii_only_fixed _ Ha).
  rewrite (tidy_sub_punct_fixed _ _ Ht).
  rewrite (tidy_sub_runs_fixed true false _ Ht) by discriminate.
  rewrite (canonical_strip_fixed _ Hc). now apply lower_fixed.
Qed.
End NormalizerFacts.

(** The fragment obeys the laws. *)
Lemma Latin1_decompose_ascii c : is_ascii c = true -> Latin1.decompose c = [c].
Proof.
  intros H. unfold Latin1.decompose, Latin1.base_of.
  assert ((c <? 192) = true) as -> by char_arith. reflexivity.
Qed.

Lemma Latin1_laws : UnicodeAsciiLaws Latin1.db.
Proof.
  split; simpl.
  - induction s as [|c t IH]; simpl; [reflexivity|].
    intros H. apply andb_true_iff in H as [Hc Ht].
    rewrite (Latin1_decompose_ascii _ Hc). simpl. f_equal. now apply IH.
  - reflexivity.
  - intros c H. char_arith.
Qed.

(** *** The shape, character by character *)

Lemma tidy_chars b s :
  tidy b s = true -> forallb (fun c => negb (is_upper c)) s = true ->
  forallb canon_char s = true.
Proof.
  revert b. induction s as [|c t IH]; intros b Ht Hl; simpl in *; [reflexivity|].
  apply andb_true_iff in Hl as [Hc Hl].
  destruct (c =? 32) eqn:E.
  - apply andb_true_iff in Ht as [_ Ht]. rewrite (IH _ Ht Hl), andb_true_r.
    unfold canon_char. rewrite E. now rewrite !orb_true_r.
  - apply andb_true_iff in Ht as [Hw Ht]. rewrite (IH _ Ht Hl), andb_true_r.
    apply negb_true_iff in Hc. unfold canon_char, is_word in *.
    rewrite Hc in Hw. destruct (is_lower c), (is_digit c), (c =? 95); simpl in *; congruence.
Qed.

Lemma canonical_chars s : canonical s -> forallb canon_char s = true.
Proof. intros [Ht Hl _]. exact (tidy_chars _ _ Ht Hl). Qed.

Lemma canonical_no_leading_space s : canonical s -> forall t, s <> 32 :: t.
Proof. intros [Ht _ _] t ->. discriminate. Qed.

Lemma canonical_no_trailing_space s : canonical s -> forall p, s <> p ++ [32].
Proof.
  intros [_ _ Hr] p ->. rewrite rstrip_snoc, is_space_32 in Hr.
  pose proof (rstrip_length p) as L. rewrite Hr, length_app in L. simpl in L. lia.
Qed.

Lemma tidy_no_double_space b p t : tidy b (p ++ 32 :: 32 :: t) = false.
Proof.
  revert b. induction p as [|c p IH]; intros b; simpl.
  - now rewrite andb_false_r.
  - destruct (c =? 32); rewrite IH; now rewrite andb_false_r.
Qed.

Lemma canonical_no_double_space s : canonical s -> forall p t, s <> p ++ 32 :: 32 :: t.
Proof. intros [Ht _ _] p t ->. now rewrite tidy_no_double_space in Ht. Qed.

(** ** The normaliser *)

(** What does hold of every output of the two normalisers: it consists of
    lower-case ASCII letters, digits, underscores and blanks, and has no
    leading, trailing or doubled blank. *)
Theorem normalize_shape (U : UnicodeData) (x : str) :
  let outputs := [normalize_topic_name U x; bot_normalize_topic_name U x] in
  Forall (fun r =>
    forallb canon_char r = true
    /\ (forall t, r <> 32 :: t)
    /\ (forall p, r <> p ++ [32])
    /\ (forall p t, r <> p ++ 32 :: 32 :: t)) outputs.
Proof.
  assert (forall r, canonical r ->
    forallb canon_char r = true /\ (forall t, r <> 32 :: t)
    /\ (forall p, r <> p ++ [32]) /\ (forall p t, r <> p ++ 32 :: 32 :: t)) as shape.
  { intros r Hc. repeat split.
    - now apply canonical_chars.
    - now apply canonical_no_leading_space.
    - now apply canonical_no_trailing_space.
    - now apply canonical_no_double_space. }
  simpl. constructor; [apply shape, normalize_canonical|].
  constructor; [apply shape, bot_normalize_canonical|]. constructor.
Qed.

(** C3. The design document says that the output of [normalize] matches
    [^[a-z0-9 ]*$].  On the input [a_b] both normalisers return [a_b]: the
    underscore belongs to [\w], so the pattern [[^\w\s]] leaves it in place,
    and the output is outside the stated alphabet. *)
Theorem normalize_keeps_underscore :
  normalize_topic_name Latin1.db (py "a_b") = py "a_b"
  /\ bot_normalize_topic_name Latin1.db (py "a_b") = py "a_b"
  /\ forallb spec_char (normalize_topic_name Latin1.db (py "a_b")) = false
  /\ forallb spec_char (bot_normalize_topic_name Latin1.db (py "a_b")) = false.
Proof. repeat split; reflexivity. Qed.

(** C6. [normalize] is idempotent: normalising a canonical form returns it
    unchanged, for Unicode tables that leave ASCII text alone. *)
Theorem normalize_idempotent (U : UnicodeData) (x : str) :
  UnicodeAsciiLaws U ->
  normalize_topic_name U (normalize_topic_name U x) = normalize_topic_name U x.
Proof.
  intros laws. apply canonical_normalize_fixed; [exact laws|].
  apply normalize_canonical.
Qed.

(** The name [Café ☕], then its canonical form [cafe]. *)
Lemma normalize_idempotent_witness :
  UnicodeAsciiLaws Latin1.db
  /\ normalize_topic_name Latin1.db
       (normalize_topic_name Latin1.db [67; 97; 102; 233; 32; 9749])
     = normalize_topic_name Latin1.db [67; 97; 102; 233; 32; 9749].
Proof.
  split; [exact Latin1_laws|].
  exact (normalize_idempotent Latin1.db [67; 97; 102; 233; 32; 9749] Latin1_laws).
Defined.

(** The normaliser of [telegram_bot.py] is idempotent as well. *)
Lemma bot_normalize_idempotent (U : UnicodeData) (x : str) :
  UnicodeAsciiLaws U ->
  bot_normalize_topic_name U (bot_normalize_topic_name U x)
  = bot_normalize_topic_name U x.
Proof.
  intros laws. apply canonical_bot_normalize_fixed; [exact laws|].
  apply bot_normalize_canonical.
Qed.

(** ** The exact-match fast path *)

(** C9. Two distinct non-empty names whose canonical forms are both empty
    score exactly 1.0 through the [exact_match] path, and [are_duplicates]
    reports them as duplicates at every threshold up to 1.0. *)
Theorem empty_canonical_forms_are_duplicates (U : UnicodeData) (name1 name2 : str) :
  name1 <> [] -> name2 <> [] -> name1 <> name2 ->
  normalize_topic_name U name1 = [] -> normalize_topic_name U name2 = [] ->
  calculate_similarity U name1 name2 = (1%Q, ExactMatch [] [])
  /\ forall threshold : Q, (threshold <= 1)%Q ->
       are_duplicates U threshold name1 name2 = (true, 1%Q, ExactMatch [] []).
Proof.
  intros H1 H2 _ N1 N2.
  assert (calculate_similarity U name1 name2 = (1%Q, ExactMatch [] [])) as E.
  { unfold calculate_similarity.
    destruct name1 as [|c1 t1]; [congruence|]. destruct name2 as [|c2 t2]; [congruence|].
    now rewrite N1, N2. }
  split; [exact E|]. intros threshold Ht.
  unfold are_duplicates. rewrite E.
  apply Qle_bool_iff in Ht. now rewrite Ht.
Qed.

(** The names [☕] and [!?]. *)
Lemma empty_canonical_forms_are_duplicates_witness :
  calculate_similarity Latin1.db [9749] (py "!?") = (1%Q, ExactMatch [] [])
  /\ forall threshold : Q, (threshold <= 1)%Q ->
       are_duplicates Latin1.db threshold [9749] (py "!?") = (true, 1%Q, ExactMatch [] []).
Proof.
  apply (empty_canonical_forms_are_duplicates Latin1.db [9749] (py "!?"));
    solve [discriminate | reflexivity].
Defined.

(** ** Loading the registry *)

(** C8. A missing file and a JSON decoding error both make [load_topics]
    return the empty mapping. *)
Theorem load_topics_missing_or_malformed :
  load_topics (ReadRaises FileNotFoundError) = Returns (JObject [])
  /\ load_topics (ReadRaises JSONDecodeError) = Returns (JObject []).
Proof. split; reflexivity. Qed.

(** The other ways the read can go wrong are not caught. *)
Lemma load_topics_propagates :
  load_topics (ReadRaises PermissionError) = Raises PermissionError
  /\ load_topics (ReadRaises UnicodeDecodeError) = Raises UnicodeDecodeError
  /\ load_topics (ReadParsed (JArray [JInt 1])) = Raises AttributeError.
Proof. repeat split; reflexivity. Qed.

(** C10. A stored mapping whose first key begins with [-] is discarded
    whole: [load_topics] returns the empty mapping. *)
Theorem load_topics_discards_legacy (key : str) (value : json) (rest : list (str * json)) :
  startswith key (py "-") = true ->
  load_topics (ReadParsed (JObject ((key, value) :: rest))) = Returns (JObject []).
Proof. intros H. simpl. simpl in H. now rewrite H. Qed.

Lemma load_topics_discards_legacy_witness :
  load_topics (ReadParsed (JObject [(py "-1001234", JString (py "Daily News"));
                                    (py "-1005678", JString (py "Music"))]))
  = Returns (JObject []).
Proof.
  apply (load_topics_discards_legacy (py "-1001234")). reflexivity.
Defined.

(** ** Resolving a topic *)

Section BotFacts.
Variable U : UnicodeData.
Variable create_forum_topic : str -> create_result.
Variable write_ok : bool.

Abbreviation resolve := (get_or_create_topic U create_forum_topic write_ok).
Abbreviation canon := (bot_normalize_topic_name U).

Lemma find_topic_unmatched name ts :
  unmatched U name ts -> find_topic U (canon name) ts = None.
Proof.
  unfold find_topic. induction 1 as [|e ts He _ IH]; cbn [List.find]; [reflexivity|].
  unfold str_eqb at 1. now rewrite bool_decide_eq_false_2.
Qed.

Lemma find_topic_first name pre key handle post :
  unmatched U name pre -> canon key = canon name ->
  find_topic U (canon name) (pre ++ (key, handle) :: post) = Some (key, handle).
Proof.
  unfold find_topic. intros Hpre Hkey.
  induction Hpre as [|e ts He _ IH]; cbn [List.find app]; unfold str_eqb at 1.
  - now rewrite bool_decide_eq_true_2.
  - now rewrite bool_decide_eq_false_2.
Qed.

(** Assigning under a key the dict does not hold appends the entry. *)
Lemma dict_set_fresh name handle ts :
  unmatched U name ts -> dict_set ts name handle = ts ++ [(name, handle)].
Proof.
  induction 1 as [|[k v] ts He _ IH]; cbn [dict_set app]; [reflexivity|].
  unfold str_eqb. rewrite bool_decide_eq_false_2; [now rewrite IH|].
  simpl in He. congruence.
Qed.

Lemma resolve_unmatched st chat_id name :
  unmatched U name (topics st) ->
  resolve st chat_id name =
  let st1 := {| topics := topics st; topics_file := topics_file st;
                created := created st ++ [take 128 name] |} in
  match create_forum_topic (take 128 name) with
  | CreateRaises => (None, st1)
  | CreateReturns topic =>
      match (match message_thread_id topic, thread_id topic, id topic with
             | Some t, _, _ => Some t
             | None, Some t, _ => Some t
             | None, None, Some t => Some t
             | None, None, None => None
             end) with
      | None => (None, st1)
      | Some t =>
          (Some t,
           save_topics write_ok
             {| topics := topics st ++ [(name, t)]; topics_file := topics_file st;
                created := created st ++ [take 128 name] |})
      end
  end.
Proof.
  intros Hn. unfold get_or_create_topic.
  rewrite (find_topic_unmatched _ _ Hn). cbn [topics topics_file created].
  destruct (create_forum_topic (take 128 name)) as [|topic]; [reflexivity|].
  destruct (message_thread_id topic), (thread_id topic), (id topic);
    rewrite ?(dict_set_fresh _ _ _ Hn); reflexivity.
Qed.

(** C7. When the topic-creation call raises, [get_or_create_topic]
    returns [None] and leaves the registry, in memory and on disk, as it
    was. *)
Theorem creation_failure_leaves_registry (st : bot_state) (chat_id : Z) (name : str) :
  unmatched U name (topics st) ->
  create_forum_topic (take 128 name) = CreateRaises ->
  fst (resolve st chat_id name) = None
  /\ topics (snd (resolve st chat_id name)) = topics st
  /\ topics_file (snd (resolve st chat_id name)) = topics_file st.
Proof.
  intros Hn Hc. rewrite (resolve_unmatched _ _ _ Hn). cbn zeta.
  rewrite Hc. repeat split.
Qed.

(** C1, as the code has it.  [get_or_create_topic] never consults a
    similarity threshold.  It returns the handle of the first entry whose
    key has the canonical form of the new name, without calling topic
    creation and without touching the registry; when no key has that
    canonical form it calls topic creation with the first 128 characters
    of the raw name and, given a thread id, appends the entry under the
    raw name and saves the registry. *)
Theorem resolve_by_canonical_form (st : bot_state) (chat_id : Z) (name : str) :
  (forall pre key handle post,
      topics st = pre ++ (key, handle) :: post ->
      unmatched U name pre -> canon key = canon name ->
      resolve st chat_id name = (Some handle, st))
  /\ (forall t rest1 rest2,
      unmatched U name (topics st) ->
      create_forum_topic (take 128 name)
      = CreateReturns {| message_thread_id := Some t; thread_id := rest1; id := rest2 |} ->
      resolve st chat_id name
      = (Some t,
         save_topics write_ok
           {| topics := topics st ++ [(name, t)]; topics_file := topics_file st;
              created := created st ++ [take 128 name] |})).
Proof.
  split.
  - intros pre key handle post Ht Hpre Hkey. unfold get_or_create_topic.
    now rewrite Ht, (find_topic_first _ _ _ _ _ Hpre Hkey).
  - intros t rest1 rest2 Hn Hc. rewrite (resolve_unmatched _ _ _ Hn). cbn zeta.
    now rewrite Hc.
Qed.
End BotFacts.

Lemma creation_failure_leaves_registry_witness :
  let registry := [(py "Daily News", 101%Z)] in
  let st := {| topics := registry; topics_file := Some registry; created := [] |} in
  let outcome := get_or_create_topic Latin1.db (fun _ => CreateRaises) true st 7 (py "Music") in
  fst outcome = None /\ topics (snd outcome) = registry
  /\ topics_file (snd outcome) = Some registry.
Proof.
  apply (creation_failure_leaves_registry Latin1.db (fun _ => CreateRaises) true).
  - repeat constructor. vm_compute. discriminate.
  - reflexivity.
Defined.

(** C1, refuted as stated.  At threshold 0.85 the best composite score of
    [Music New Group] against the registry [{"Music New": 101}] is 0.86 and
    [check_against_existing] reports a duplicate of [Music New]; yet
    [get_or_create_topic] calls topic creation and appends a second
    entry. *)
Lemma resolve_ignores_threshold :
  let registry := [(py "Music New", 101%Z)] in
  let st := {| topics := registry; topics_file := Some registry; created := [] |} in
  let verdict := check_against_existing Latin1.db 0.85 (py "Music New Group") registry in
  (similarity verdict == 0.86)%Q
  /\ is_duplicate verdict = true
  /\ similar_topic verdict = Some (py "Music New")
  /\ get_or_create_topic Latin1.db thread_202 true st 7 (py "Music New Group")
     = (Some 202%Z,
        {| topics := [(py "Music New", 101%Z); (py "Music New Group", 202%Z)];
           topics_file := Some [(py "Music New", 101%Z); (py "Music New Group", 202%Z)];
           created := [py "Music New Group"] |}).
Proof. vm_compute. repeat split; reflexivity. Qed.

(** [music  NEW!] has the canonical form of the second key; [Group News
    Chat] has the canonical form of no key (its best composite score, against
    [News Chat Group], is 0.84). *)
Lemma resolve_by_canonical_form_witness :
  let registry := [(py "News Chat Group", 100%Z); (py "Music New", 101%Z)] in
  let st := {| topics := registry; topics_file := Some registry; created := [] |} in
  get_or_create_topic Latin1.db thread_202 true st 7 (py "music  NEW!") = (Some 101%Z, st)
  /\ get_or_create_topic Latin1.db thread_202 true st 7 (py "Group News Chat")
     = (Some 202%Z,
        {| topics := registry ++ [(py "Group News Chat", 202%Z)];
           topics_file := Some (registry ++ [(py "Group News Chat", 202%Z)]);
           created := [py "Group News Chat"] |}).
Proof.
  intros registry st. split.
  - apply (proj1 (resolve_by_canonical_form Latin1.db thread_202 true st 7 (py "music  NEW!"))
             [(py "News Chat Group", 100%Z)] (py "Music New") 101%Z []).
    + reflexivity.
    + repeat constructor. vm_compute. discriminate.
    + reflexivity.
  - apply (proj2 (resolve_by_canonical_form Latin1.db thread_202 true st 7 (py "Group News Chat"))
             202%Z None None).
    + repeat constructor; vm_compute; discriminate.
    + reflexivity.
Defined.

Example group_news_chat_scores_084 :
  (similarity (check_against_existing Latin1.db 0.85 (py "Group News Chat")
                 [(py "News Chat Group", 100%Z); (py "Music New", 101%Z)]) == 0.84)%Q.
Proof. vm_compute. reflexivity. Qed.

(** ** The composite score *)

Lemma keyword_similarity_is_jaccard (A B : gset str) :
  keyword_similarity_of A B = jaccard_index A B.
Proof.
  unfold keyword_similarity_of, jaccard_index.
  destruct (decide (A = ∅ \/ B = ∅)) as [[->| ->]|Hne].
  - now rewrite (bool_decide_eq_false_2 (∅ ≠ ∅)) by (intros H; now apply H).
  - rewrite (bool_decide_eq_false_2 (∅ ≠ ∅)) by (intros H; now apply H).
    now rewrite andb_false_r.
  - rewrite !bool_decide_eq_true_2; [reflexivity| |]; intros ->; apply Hne; auto.
Qed.

Lemma calculate_similarity_hybrid (U : UnicodeData) (name1 name2 : str) :
  name1 <> [] -> name2 <> [] ->
  normalize_topic_name U name1 <> normalize_topic_name U name2 ->
  fst (calculate_similarity U name1 name2)
  = (SequenceMatcher.ratio (normalize_topic_name U name1) (normalize_topic_name U name2) * 0.4
     + keyword_similarity_of (extract_keywords U name1) (extract_keywords U name2) * 0.35
     + word_avg_similarity_of (split (normalize_topic_name U name1))
                              (split (normalize_topic_name U name2)) * 0.25)%Q.
Proof.
  intros H1 H2 Hn. unfold calculate_similarity, str_eqb.
  destruct name1 as [|c1 t1]; [congruence|]. destruct name2 as [|c2 t2]; [congruence|].
  now rewrite bool_decide_eq_false_2.
Qed.

Example daily_news_2_parts :
  (SequenceMatcher.ratio (py "daily news") (py "daily news 2") == 20 # 22)%Q
  /\ (jaccard_index (extract_keywords Latin1.db (py "Daily News"))
                    (extract_keywords Latin1.db (py "Daily News 2")) == 1)%Q
  /\ (word_avg_similarity_of (split (py "daily news")) (split (py "daily news 2")) == 4 # 5)%Q
  /\ (fst (calculate_similarity Latin1.db (py "Daily News") (py "Daily News 2")) == 201 # 220)%Q.
Proof. vm_compute. repeat split; reflexivity. Qed.

(** ** Symmetry *)

Lemma Qsum_from (l : list Q) (a : Q) : (fold_left Qplus l a == a + Qsum l)%Q.
Proof.
  unfold Qsum. revert a. induction l as [|x l IH]; intros a; simpl.
  - ring.
  - rewrite (IH (a + x)%Q), (IH (0 + x)%Q). ring.
Qed.

Lemma Qsum_app (l1 l2 : list Q) : (Qsum (l1 ++ l2) == Qsum l1 + Qsum l2)%Q.
Proof. unfold Qsum at 1. rewrite fold_left_app. apply Qsum_from. Qed.

Lemma keyword_similarity_comm (A B : gset str) :
  keyword_similarity_of A B = keyword_similarity_of B A.
Proof.
  unfold keyword_similarity_of.
  now rewrite andb_comm, (comm_L (∩) A B), (comm_L (∪) A B).
Qed.

(** C4, refuted as stated: [tide] against [diet] scores 0.19375, [diet]
    against [tide] scores 0.29375.  The ratio of [SequenceMatcher] depends
    on the order of its arguments (0.25 and 0.5 here). *)
Lemma score_not_symmetric :
  ~ (fst (calculate_similarity Latin1.db (py "tide") (py "diet"))
     == fst (calculate_similarity Latin1.db (py "diet") (py "tide")))%Q.
Proof. vm_compute. discriminate. Qed.

Example tide_diet_scores :
  (SequenceMatcher.ratio (py "tide") (py "diet") == 0.25)%Q
  /\ (SequenceMatcher.ratio (py "diet") (py "tide") == 0.5)%Q
  /\ (fst (calculate_similarity Latin1.db (py "tide") (py "diet")) == 0.19375)%Q
  /\ (fst (calculate_similarity Latin1.db (py "diet") (py "tide")) == 0.29375)%Q.
Proof. vm_compute. repeat split; reflexivity. Qed.

(** C4, as the code has it.  With an empty name both scores are 0.0 and
    with equal canonical forms both are 1.0, whatever the order.  For any
    other pair the two scores share their keyword term, while the sequence
    term is the ratio of [SequenceMatcher] taken in the order of the
    arguments, and the token term averages the best matches in the order
    of the arguments. *)
Theorem score_symmetry_by_component (U : UnicodeData) (a b : str) :
  (a = [] \/ b = [] \/ normalize_topic_name U a = normalize_topic_name U b ->
   fst (calculate_similarity U a b) = fst (calculate_similarity U b a))
  /\ (a <> [] -> b <> [] -> normalize_topic_name U a <> normalize_topic_name U b ->
      let na := normalize_topic_name U a in
      let nb := normalize_topic_name U b in
      let keyword := keyword_similarity_of (extract_keywords U a) (extract_keywords U b) in
      fst (calculate_similarity U a b)
      = (SequenceMatcher.ratio na nb * 0.4 + keyword * 0.35
         + word_avg_similarity_of (split na) (split nb) * 0.25)%Q
      /\ fst (calculate_similarity U b a)
         = (SequenceMatcher.ratio nb na * 0.4 + keyword * 0.35
            + word_avg_similarity_of (split nb) (split na) * 0.25)%Q).
Proof.
  split.
  - intros H. unfold calculate_similarity, str_eqb.
    destruct a as [|ca ta]; [now destruct b|]. destruct b as [|cb tb]; [reflexivity|].
    destruct H as [H|[H|H]]; [discriminate H|discriminate H|].
    now rewrite !bool_decide_eq_true_2 by congruence.
  - intros Ha Hb Hn na nb keyword. subst na nb keyword. split.
    + now apply calculate_similarity_hybrid.
    + rewrite (keyword_similarity_comm (extract_keywords U a)).
      apply calculate_similarity_hybrid; congruence.
Qed.

(** Both cases of the first part, and a pair of the second. *)
Example symmetric_pairs :
  fst (calculate_similarity Latin1.db [] (py "diet")) = 0%Q
  /\ fst (calculate_similarity Latin1.db (py "diet") []) = 0%Q
  /\ fst (calculate_similarity Latin1.db (py "Daily News") (py "daily-news!")) = 1%Q
  /\ fst (calculate_similarity Latin1.db (py "daily-news!") (py "Daily News")) = 1%Q.
Proof. repeat split; reflexivity. Qed.

(** ** Duplicate clusters *)

Lemma are_duplicates_at_least (U : UnicodeData) (t : Q) (x y : str) :
  (t <= fst (calculate_similarity U x y))%Q ->
  fst (fst (are_duplicates U t x y)) = true.
Proof.
  unfold are_duplicates. destruct (calculate_similarity U x y) as [s d]. simpl.
  intros H. now apply Qle_bool_iff.
Qed.

Lemma are_duplicates_below (U : UnicodeData) (t : Q) (x y : str) :
  (fst (calculate_similarity U x y) < t)%Q ->
  fst (fst (are_duplicates U t x y)) = false.
Proof.
  unfold are_duplicates. destruct (calculate_similarity U x y) as [s d]. simpl.
  intros H. apply not_true_iff_false. intros E. apply Qle_bool_iff in E.
  exact (Qlt_not_le _ _ H E).
Qed.

(** Runs the two loops of [find_duplicates_in_list] on names that are
    known apart, given the verdicts of [are_duplicates] as equations. *)
Ltac run_clusters :=
  unfold find_duplicates_in_list;
  cbn [map fst groups_loop gather];
  repeat (first
    [ rewrite bool_decide_eq_false_2 by (set_unfold; intuition congruence)
    | rewrite bool_decide_eq_true_2 by (set_unfold; intuition congruence)
    | match goal with
      | H : fst (fst (are_duplicates _ _ ?x ?y)) = _ |- context [are_duplicates _ _ ?x ?y] =>
          rewrite H
      end ];
    cbn [map fst groups_loop gather app length Nat.ltb Nat.leb]);
  try reflexivity.

(** C2, refuted as stated.  With [A = Daily News], [B = Daily News 2] and
    [C = Daily News 2 3 4] at threshold 0.85, [A]-[B] and [B]-[C] score at
    least the threshold and [A]-[C] scores below it, in both orders; over
    the registry that lists them as [A], [B], [C] the only cluster is
    [[A; B]], and [C] is in none. *)
Lemma chain_not_one_cluster :
  let A := py "Daily News" in
  let B := py "Daily News 2" in
  let C := py "Daily News 2 3 4" in
  let sim x y := fst (calculate_similarity Latin1.db x y) in
  ((0.85 <= sim A B)%Q /\ (0.85 <= sim B A)%Q)
  /\ ((0.85 <= sim B C)%Q /\ (0.85 <= sim C B)%Q)
  /\ ((sim A C < 0.85)%Q /\ (sim C A < 0.85)%Q)
  /\ find_duplicates_in_list Latin1.db 0.85 [(A, 1%Z); (B, 2%Z); (C, 3%Z)] = [[A; B]].
Proof. vm_compute. repeat split; solve [reflexivity | discriminate]. Qed.

(** C2, as the code has it.  Each name that is not yet in a cluster
    gathers the later names that duplicate it; nothing is gathered through
    an intermediate name.  For a chain [A]-[B]-[C] whose ends do not
    duplicate each other, all three names form one cluster exactly in the
    registries that list [B] first; in the others the first name is
    clustered with [B] and the remaining end is left out. *)
Theorem clusters_of_a_chain (U : UnicodeData) (t : Q) (A B C : str) (hA hB hC : Z) :
  A <> B -> B <> C -> A <> C ->
  let sim x y := fst (calculate_similarity U x y) in
  (t <= sim A B)%Q -> (t <= sim B A)%Q ->
  (t <= sim B C)%Q -> (t <= sim C B)%Q ->
  (sim A C < t)%Q -> (sim C A < t)%Q ->
  let clusters := find_duplicates_in_list U t in
  clusters [(B, hB); (A, hA); (C, hC)] = [[B; A; C]]
  /\ clusters [(B, hB); (C, hC); (A, hA)] = [[B; C; A]]
  /\ clusters [(A, hA); (B, hB); (C, hC)] = [[A; B]]
  /\ clusters [(A, hA); (C, hC); (B, hB)] = [[A; B]]
  /\ clusters [(C, hC); (B, hB); (A, hA)] = [[C; B]]
  /\ clusters [(C, hC); (A, hA); (B, hB)] = [[C; B]].
Proof.
  intros HAB HBC HAC sim AB BA BC CB AC CA clusters. subst sim clusters.
  apply are_duplicates_at_least in AB, BA, BC, CB.
  apply are_duplicates_below in AC, CA.
  repeat split; run_clusters.
Qed.

Lemma clusters_of_a_chain_witness :
  let A := py "Daily News" in
  let B := py "Daily News 2" in
  let C := py "Daily News 2 3 4" in
  let clusters := find_duplicates_in_list Latin1.db 0.85 in
  clusters [(B, 2%Z); (A, 1%Z); (C, 3%Z)] = [[B; A; C]]
  /\ clusters [(B, 2%Z); (C, 3%Z); (A, 1%Z)] = [[B; C; A]]
  /\ clusters [(A, 1%Z); (B, 2%Z); (C, 3%Z)] = [[A; B]]
  /\ clusters [(A, 1%Z); (C, 3%Z); (B, 2%Z)] = [[A; B]]
  /\ clusters [(C, 3%Z); (B, 2%Z); (A, 1%Z)] = [[C; B]]
  /\ clusters [(C, 3%Z); (A, 1%Z); (B, 2%Z)] = [[C; B]].
Proof.
  apply (clusters_of_a_chain Latin1.db 0.85 (py "Daily News") (py "Daily News 2")
           (py "Daily News 2 3 4") 1 2 3);
    vm_compute; solve [reflexivity | discriminate].
Defined.

(** ** The work loop of [SequenceMatcher] comes to an end

    [blocks_loop] is given [2 * len(a) + 1] rounds.  A block found in the
    range [alo..ahi] of [a] lies inside it, so the ranges put back on the
    queue are shorter, and the rounds given are enough to empty the queue:
    more rounds do not change the blocks found. *)
Section MatcherRounds.
Variables a b : str.

Abbreviation flm := (SequenceMatcher.find_longest_match a b).

Lemma j2len_prev_upto n j2len j :
  lengths_upto n j2len -> (SequenceMatcher.j2len_prev j2len j <= n)%nat.
Proof.
  intros H. unfold SequenceMatcher.j2len_prev. destruct j as [|j']; [lia|].
  destruct (List.find _ j2len) as [e|] eqn:E; [|lia].
  apply find_some in E as [Hin _].
  unfold lengths_upto in H. rewrite List.Forall_forall in H. now apply H.
Qed.

Lemma scan_row_within alo ahi blo bhi i j2len js best newj2len :
  (alo <= i < ahi)%nat ->
  lengths_upto (i - alo) j2len ->
  block_within alo ahi best -> lengths_upto (i - alo + 1) newj2len ->
  let r := SequenceMatcher.scan_row blo bhi i j2len js best newj2len in
  block_within alo ahi (fst r) /\ lengths_upto (i - alo + 1) (snd r).
Proof.
  intros Hi Hj. revert best newj2len.
  induction js as [|j js IH]; intros best newj2len Hb Hn; simpl; [now split|].
  destruct (j <? blo)%nat; [now apply IH|].
  destruct (bhi <=? j)%nat; [now split|].
  pose proof (j2len_prev_upto _ _ j Hj) as Hk.
  apply IH.
  - destruct (snd best <? S (SequenceMatcher.j2len_prev j2len j))%nat; [|exact Hb].
    unfold block_within. simpl. lia.
  - constructor; [simpl; lia | exact Hn].
Qed.

Lemma scan_within alo ahi blo bhi n : forall i best j2len,
  (alo <= i)%nat -> (i + n <= ahi)%nat ->
  lengths_upto (i - alo) j2len -> block_within alo ahi best ->
  block_within alo ahi (SequenceMatcher.scan a b blo bhi (seq i n) best j2len).
Proof.
  induction n as [|n IH]; intros i best j2len Hlo Hhi Hj Hb; simpl; [exact Hb|].
  destruct (SequenceMatcher.scan_row blo bhi i j2len _ best []) as [best' new] eqn:E.
  pose proof (scan_row_within alo ahi blo bhi i j2len
                (SequenceMatcher.b2j b (nth i a 0)) best []) as R.
  rewrite E in R. simpl in R.
  destruct R as [R1 R2]; [lia|exact Hj|exact Hb|constructor|].
  apply IH; [lia|lia| |exact R1].
  replace (S i - alo)%nat with (i - alo + 1)%nat by lia. exact R2.
Qed.

Lemma extend_left_within alo ahi blo fuel : forall m,
  block_within alo ahi m ->
  block_within alo ahi (SequenceMatcher.extend_left a b fuel alo blo m).
Proof.
  induction fuel as [|f IH]; intros [[i j] k] Hm; simpl; [exact Hm|].
  destruct ((alo <? i)%nat && (blo <? j)%nat && _) eqn:E; [|exact Hm].
  apply IH. unfold block_within in *. simpl in *.
  apply andb_true_iff in E as [E _]. apply andb_true_iff in E as [E _].
  apply Nat.ltb_lt in E. lia.
Qed.

Lemma extend_right_within alo ahi bhi fuel : forall m,
  block_within alo ahi m ->
  block_within alo ahi (SequenceMatcher.extend_right a b fuel ahi bhi m).
Proof.
  induction fuel as [|f IH]; intros [[i j] k] Hm; simpl; [exact Hm|].
  destruct ((i + k <? ahi)%nat && (j + k <? bhi)%nat && _) eqn:E; [|exact Hm].
  apply IH. unfold block_within in *. simpl in *.
  apply andb_true_iff in E as [E _]. apply andb_true_iff in E as [E _].
  apply Nat.ltb_lt in E. lia.
Qed.

Lemma find_longest_match_within alo ahi blo bhi :
  (alo <= ahi)%nat -> block_within alo ahi (flm alo ahi blo bhi).
Proof.
  intros H. unfold SequenceMatcher.find_longest_match.
  apply extend_right_within, extend_left_within, scan_within.
  - lia.
  - lia.
  - constructor.
  - unfold block_within. simpl. lia.
Qed.

Lemma blocks_loop_rounds fuel : forall fuel' queue blocks,
  ranges_ok queue -> (rounds queue <= fuel)%nat -> (rounds queue <= fuel')%nat ->
  SequenceMatcher.blocks_loop a b fuel queue blocks
  = SequenceMatcher.blocks_loop a b fuel' queue blocks.
Proof.
  induction fuel as [|f IH]; intros fuel' queue blocks Hq Hf Hf'.
  - destruct queue as [|[[[alo ahi] blo] bhi] q]; [now destruct fuel'|].
    simpl in Hf. lia.
  - destruct queue as [|[[[alo ahi] blo] bhi] q]; [now destruct fuel'|].
    destruct fuel' as [|f']; [simpl in Hf'; lia|].
    simpl in Hf, Hf'. inversion Hq as [|e q' Hr Hq']; subst. simpl in Hr.
    cbn [SequenceMatcher.blocks_loop].
    pose proof (find_longest_match_within alo ahi blo bhi Hr) as W.
    destruct (flm alo ahi blo bhi) as [[i j] k]. unfold block_within in W. simpl in W.
    destruct k as [|k]; [apply IH; [exact Hq'|lia|lia]|].
    destruct ((alo <? i)%nat && (blo <? j)%nat) eqn:E1;
      destruct ((i + S k <? ahi)%nat && (j + S k <? bhi)%nat) eqn:E2;
      try (apply andb_true_iff in E1 as [E1 _]; apply Nat.ltb_lt in E1);
      try (apply andb_true_iff in E2 as [E2 _]; apply Nat.ltb_lt in E2);
      apply IH; repeat constructor; simpl; try exact Hq'; lia.
Qed.

(** The rounds given are enough: more rounds find the same blocks. *)
Lemma matching_blocks_rounds (extra : nat) :
  SequenceMatcher.blocks_loop a b (2 * length a + 1 + extra)
    [(O, length a, O, length b)] []
  = SequenceMatcher.matching_blocks a b.
Proof.
  unfold SequenceMatcher.matching_blocks.
  apply blocks_loop_rounds; [repeat constructor; simpl; lia|simpl; lia|simpl; lia].
Qed.
End MatcherRounds.

(** ** The ratio of [SequenceMatcher] lies between 0 and 1 *)
Section MatcherBounds.
Variables a b : str.

Lemma j2len_prev_fits alo blo i j2len j :
  runs_fit alo blo i j2len ->
  (SequenceMatcher.j2len_prev j2len j + alo <= i + 1
   /\ SequenceMatcher.j2len_prev j2len j + blo <= j)%nat
  \/ SequenceMatcher.j2len_prev j2len j = O.
Proof.
  intros H. unfold SequenceMatcher.j2len_prev. destruct j as [|j']; [now right|].
  destruct (List.find _ j2len) as [e|] eqn:E; [|now right].
  apply find_some in E as [Hin He]. apply Nat.eqb_eq in He.
  unfold runs_fit in H. rewrite List.Forall_forall in H.
  destruct (H e Hin) as (H1 & H2 & H3). left. lia.
Qed.

Lemma scan_row_inside alo ahi blo bhi i j2len js best newj2len :
  (alo <= i < ahi)%nat -> (blo <= bhi)%nat ->
  (i = alo \/ runs_fit alo blo (i - 1) j2len) ->
  (i = alo -> j2len = []) ->
  block_inside alo ahi blo bhi best -> runs_fit alo blo i newj2len ->
  let r := SequenceMatcher.scan_row blo bhi i j2len js best newj2len in
  block_inside alo ahi blo bhi (fst r) /\ runs_fit alo blo i (snd r).
Proof.
  intros Hi Hb Hj Hj0. revert best newj2len.
  induction js as [|j js IH]; intros best newj2len Hbest Hn; simpl; [now split|].
  destruct (j <? blo)%nat eqn:E1; [now apply IH|].
  destruct (bhi <=? j)%nat eqn:E2; [now split|].
  apply Nat.ltb_ge in E1. apply Nat.leb_gt in E2.
  assert ((SequenceMatcher.j2len_prev j2len j + alo <= i
           /\ SequenceMatcher.j2len_prev j2len j + blo <= j)%nat) as [K1 K2].
  { destruct (decide (i = alo)) as [Heq|Hne].
    - rewrite (Hj0 Heq). unfold SequenceMatcher.j2len_prev.
      destruct j; simpl; lia.
    - destruct Hj as [Hj|Hj]; [contradiction|].
      destruct (j2len_prev_fits alo blo (i - 1) j2len j Hj) as [[P1 P2]|P]; lia. }
  apply IH.
  - destruct (snd best <? S (SequenceMatcher.j2len_prev j2len j))%nat; [|exact Hbest].
    unfold block_inside. simpl. lia.
  - constructor; [simpl; lia | exact Hn].
Qed.

Lemma scan_inside alo ahi blo bhi n : forall i best j2len,
  (alo <= i)%nat -> (i + n <= ahi)%nat -> (blo <= bhi)%nat ->
  (i = alo \/ runs_fit alo blo (i - 1) j2len) -> (i = alo -> j2len = []) ->
  block_inside alo ahi blo bhi best ->
  block_inside alo ahi blo bhi (SequenceMatcher.scan a b blo bhi (seq i n) best j2len).
Proof.
  induction n as [|n IH]; intros i best j2len Hlo Hhi Hb Hj Hj0 Hbest; simpl; [exact Hbest|].
  destruct (SequenceMatcher.scan_row blo bhi i j2len _ best []) as [best' new] eqn:E.
  pose proof (scan_row_inside alo ahi blo bhi i j2len
                (SequenceMatcher.b2j b (nth i a 0)) best []) as R.
  rewrite E in R. simpl in R.
  destruct R as [R1 R2]; [lia|exact Hb|exact Hj|exact Hj0|exact Hbest|constructor|].
  apply IH; [lia|lia|exact Hb| | |exact R1].
  - right. replace (S i - 1)%nat with i by lia. exact R2.
  - lia.
Qed.

Lemma extend_left_inside alo ahi blo bhi fuel : forall m,
  block_inside alo ahi blo bhi m ->
  block_inside alo ahi blo bhi (SequenceMatcher.extend_left a b fuel alo blo m).
Proof.
  induction fuel as [|f IH]; intros [[i j] k] Hm; simpl; [exact Hm|].
  destruct ((alo <? i)%nat && (blo <? j)%nat && _) eqn:E; [|exact Hm].
  apply IH. unfold block_inside in *. simpl in *.
  apply andb_true_iff in E as [E _]. apply andb_true_iff in E as [E1 E2].
  apply Nat.ltb_lt in E1, E2. lia.
Qed.

Lemma extend_right_inside alo ahi blo bhi fuel : forall m,
  block_inside alo ahi blo bhi m ->
  block_inside alo ahi blo bhi (SequenceMatcher.extend_right a b fuel ahi bhi m).
Proof.
  induction fuel as [|f IH]; intros [[i j] k] Hm; simpl; [exact Hm|].
  destruct ((i + k <? ahi)%nat && (j + k <? bhi)%nat && _) eqn:E; [|exact Hm].
  apply IH. unfold block_inside in *. simpl in *.
  apply andb_true_iff in E as [E _]. apply andb_true_iff in E as [E1 E2].
  apply Nat.ltb_lt in E1, E2. lia.
Qed.

Lemma find_longest_match_inside alo ahi blo bhi :
  (alo <= ahi)%nat -> (blo <= bhi)%nat ->
  block_inside alo ahi blo bhi (SequenceMatcher.find_longest_match a b alo ahi blo bhi).
Proof.
  intros Ha Hb. unfold SequenceMatcher.find_longest_match.
  apply extend_right_inside, extend_left_inside, scan_inside;
    [lia | lia | exact Hb | now left | reflexivity |].
  unfold block_inside. simpl. lia.
Qed.

Lemma total_size_snoc blocks m : total_size (blocks ++ [m]) = (total_size blocks + snd m)%nat.
Proof. unfold total_size. now rewrite fold_left_app. Qed.

Lemma blocks_loop_total fuel : forall queue blocks,
  queue_ok queue ->
  (total_size (SequenceMatcher.blocks_loop a b fuel queue blocks)
   <= total_size blocks + span_a queue
   /\ total_size (SequenceMatcher.blocks_loop a b fuel queue blocks)
      <= total_size blocks + span_b queue)%nat.
Proof.
  induction fuel as [|f IH]; intros queue blocks Hq; [simpl; lia|].
  destruct queue as [|[[[alo ahi] blo] bhi] q]; [simpl; lia|].
  inversion Hq as [|e q' [Hr1 Hr2] Hq']; subst. simpl in Hr1, Hr2.
  cbn [SequenceMatcher.blocks_loop].
  pose proof (find_longest_match_inside alo ahi blo bhi Hr1 Hr2) as W.
  destruct (SequenceMatcher.find_longest_match a b alo ahi blo bhi) as [[i j] k].
  unfold block_inside in W. simpl in W.
  destruct k as [|k].
  - destruct (IH q blocks Hq') as [I1 I2]. simpl. lia.
  - set (q1 := if (alo <? i)%nat && (blo <? j)%nat then (alo, i, blo, j) :: q else q).
    set (q2 := if (i + S k <? ahi)%nat && (j + S k <? bhi)%nat
               then ((i + S k)%nat, ahi, (j + S k)%nat, bhi) :: q1 else q1).
    assert (queue_ok q2 /\ (span_a q2 + S k <= ahi - alo + span_a q)%nat
            /\ (span_b q2 + S k <= bhi - blo + span_b q)%nat) as (Q & Sa & Sb).
    { subst q1 q2.
      destruct ((alo <? i)%nat && (blo <? j)%nat);
        destruct ((i + S k <? ahi)%nat && (j + S k <? bhi)%nat);
        repeat split; repeat constructor; simpl; try exact Hq'; lia. }
    destruct (IH q2 (blocks ++ [(i, j, S k)]) Q) as [I1 I2].
    rewrite total_size_snoc in I1, I2. simpl in *. lia.
Qed.

Lemma matches_bounded :
  (SequenceMatcher.matches a b <= length a /\ SequenceMatcher.matches a b <= length b)%nat.
Proof.
  unfold SequenceMatcher.matches, SequenceMatcher.matching_blocks.
  destruct (blocks_loop_total (2 * length a + 1) [(O, length a, O, length b)] []) as [H1 H2].
  - repeat constructor; simpl; lia.
  - unfold total_size in H1, H2.
    cbn [fold_left span_a span_b fold_right fst snd] in H1, H2. lia.
Qed.

Lemma ratio_bounds : (0 <= SequenceMatcher.ratio a b <= 1)%Q.
Proof.
  unfold SequenceMatcher.ratio.
  destruct matches_bounded as [Ma Mb].
  destruct (length a + length b)%nat as [|n] eqn:E; [split; discriminate|].
  assert (0 < inject_Z (Z.of_nat (S n)))%Q as Hpos
    by (change 0%Q with (inject_Z 0); rewrite <- Zlt_Qlt; lia).
  split.
  - apply Qle_shift_div_l; [exact Hpos|]. rewrite Qmult_0_l.
    change 0%Q with (inject_Z 0). rewrite <- Zle_Qle. lia.
  - apply Qle_shift_div_r; [exact Hpos|]. rewrite Qmult_1_l. rewrite <- Zle_Qle. lia.
Qed.
End MatcherBounds.

(** ** The score lies between 0 and 1 *)

Lemma fold_max_choice (t : list Q) (x : Q) :
  let m := fold_left (fun m y => if Qltb m y then y else m) t x in
  m = x \/ In m t.
Proof.
  revert x. induction t as [|y t IH]; intros x; simpl; [now left|].
  destruct (Qltb x y).
  - destruct (IH y) as [->|H]; auto.
  - destruct (IH x) as [->|H]; auto.
Qed.

Lemma max_default_choice (xs : list Q) : xs = [] \/ In (max_default xs) xs.
Proof.
  destruct xs as [|x t]; [now left|]. right. unfold max_default.
  destruct (fold_max_choice t x) as [->|H]; simpl; auto.
Qed.

Lemma max_default_unit (xs : list Q) :
  Forall (fun x => (0 <= x <= 1)%Q) xs -> (0 <= max_default xs <= 1)%Q.
Proof.
  intros H. destruct (max_default_choice xs) as [->|Hin].
  - simpl. split; discriminate.
  - rewrite List.Forall_forall in H. now apply H.
Qed.

Lemma best_matches_unit (ws1 ws2 : list str) :
  Forall (fun x => (0 <= x <= 1)%Q) (best_matches ws1 ws2).
Proof.
  unfold best_matches. apply List.Forall_forall. intros x Hx.
  apply in_map_iff in Hx as (w1 & <- & _).
  apply max_default_unit, List.Forall_forall. intros r Hr.
  apply in_map_iff in Hr as (w2 & <- & _). apply ratio_bounds.
Qed.

Lemma Qlen_cons {A} (x : A) (l : list A) : (Qlen (x :: l) == 1 + Qlen l)%Q.
Proof.
  unfold Qlen. cbn [length]. rewrite Nat2Z.inj_succ, <- Z.add_1_l, inject_Z_plus.
  reflexivity.
Qed.

Lemma Qsum_cons (x : Q) (l : list Q) : (Qsum (x :: l) == x + Qsum l)%Q.
Proof. unfold Qsum at 1. simpl. rewrite Qsum_from. ring. Qed.

Lemma Qsum_unit (l : list Q) :
  Forall (fun x => (0 <= x <= 1)%Q) l -> (0 <= Qsum l <= Qlen l)%Q.
Proof.
  induction 1 as [|x l [Hx0 Hx1] _ [IH0 IH1]].
  - split; discriminate.
  - rewrite Qsum_cons, Qlen_cons. split; lra.
Qed.

Lemma word_avg_similarity_unit (words1 words2 : list str) :
  (0 <= word_avg_similarity_of words1 words2 <= 1)%Q.
Proof.
  unfold word_avg_similarity_of.
  set (l := best_matches words1 words2 ++ best_matches words2 words1).
  assert (Forall (fun x => (0 <= x <= 1)%Q) l) as Hl
    by (apply Forall_app; split; apply best_matches_unit).
  destruct l as [|x t] eqn:E; [split; discriminate|]. rewrite <- E in *.
  destruct (Qsum_unit l Hl) as [S0 S1].
  assert (0 < Qlen l)%Q as Hpos.
  { rewrite E, Qlen_cons. unfold Qlen.
    assert (0 <= inject_Z (Z.of_nat (length t)))%Q
      by (change 0%Q with (inject_Z 0); rewrite <- Zle_Qle; lia).
    lra. }
  split.
  - apply Qle_shift_div_l; [exact Hpos|]. lra.
  - apply Qle_shift_div_r; [exact Hpos|]. lra.
Qed.

Lemma keyword_similarity_unit (A B : gset str) :
  (0 <= keyword_similarity_of A B <= 1)%Q.
Proof.
  unfold keyword_similarity_of.
  destruct (bool_decide (A ≠ ∅) && bool_decide (B ≠ ∅)); [|split; discriminate].
  assert (size (A ∩ B) <= size (A ∪ B))%nat as Hs
    by (apply subseteq_size; intros x Hx; apply elem_of_intersection in Hx as [Hx _];
        apply elem_of_union; now left).
  destruct (size (A ∪ B)) as [|n] eqn:E.
  - assert (size (A ∩ B) = O) as -> by lia. split; discriminate.
  - assert (0 < inject_Z (Z.of_nat (S n)))%Q as Hpos
      by (change 0%Q with (inject_Z 0); rewrite <- Zlt_Qlt; lia).
    split.
    + apply Qle_shift_div_l; [exact Hpos|]. rewrite Qmult_0_l.
      change 0%Q with (inject_Z 0). rewrite <- Zle_Qle. lia.
    + apply Qle_shift_div_r; [exact Hpos|]. rewrite Qmult_1_l, <- Zle_Qle. lia.
Qed.

Lemma calculate_similarity_unit (U : UnicodeData) (name1 name2 : str) :
  (0 <= fst (calculate_similarity U name1 name2) <= 1)%Q.
Proof.
  destruct name1 as [|c1 t1]; [split; discriminate|].
  destruct name2 as [|c2 t2]; [split; discriminate|].
  destruct (decide (normalize_topic_name U (c1 :: t1) = normalize_topic_name U (c2 :: t2)))
    as [E|Hn].
  - unfold calculate_similarity, str_eqb.
    rewrite bool_decide_eq_true_2 by exact E. split; discriminate.
  - rewrite calculate_similarity_hybrid by (discriminate || exact Hn).
    pose proof (ratio_bounds (normalize_topic_name U (c1 :: t1))
                             (normalize_topic_name U (c2 :: t2))) as [R0 R1].
    pose proof (keyword_similarity_unit (extract_keywords U (c1 :: t1))
                                        (extract_keywords U (c2 :: t2))) as [K0 K1].
    pose proof (word_avg_similarity_unit (split (normalize_topic_name U (c1 :: t1)))
                                         (split (normalize_topic_name U (c2 :: t2)))) as [W0 W1].
    split; lra.
Qed.

(** Every score that [calculate_similarity] returns lies between 0.0 and
    1.0, whatever the two names. *)
Theorem score_between_0_and_1 (U : UnicodeData) (name1 name2 : str) :
  (0 <= fst (calculate_similarity U name1 name2) <= 1)%Q.
Proof. exact (calculate_similarity_unit U name1 name2). Qed.

(** ** Checking a name against the registry *)

Lemma Qltb_lt (x y : Q) : Qltb x y = true <-> (x < y)%Q.
Proof.
  unfold Qltb. rewrite negb_true_iff. split.
  - intros H. apply Qnot_le_lt. intros L. apply Qle_bool_iff in L. congruence.
  - intros H. apply not_true_iff_false. intros L. apply Qle_bool_iff in L.
    exact (Qlt_not_le _ _ H L).
Qed.

Lemma Qltb_ge (x y : Q) : Qltb x y = false <-> (y <= x)%Q.
Proof.
  unfold Qltb. rewrite negb_false_iff. apply Qle_bool_iff.
Qed.

Section CheckFacts.
Variable U : UnicodeData.
Variable new_name : str.

Abbreviation sim k := (fst (calculate_similarity U new_name k)).

(** What the loop of [check_against_existing] computes: the scores in
    key order, and either the best match it started with, or the first
    key whose score is the greatest. *)
Lemma check_loop_spec (keys : list str) : forall best_match best_similarity scores,
  let r := check_loop U new_name keys best_match best_similarity scores in
  snd r = scores ++ map (fun k => (k, sim k)) keys
  /\ ((fst (fst r) = best_match /\ snd (fst r) = best_similarity
       /\ Forall (fun k => (sim k <= best_similarity)%Q) keys)
      \/ (exists pre k post,
            keys = pre ++ k :: post
            /\ fst (fst r) = Some k /\ snd (fst r) = sim k
            /\ (best_similarity < sim k)%Q
            /\ Forall (fun k' => (sim k' < sim k)%Q) pre
            /\ Forall (fun k' => (sim k' <= sim k)%Q) post)).
Proof.
  induction keys as [|k0 rest IH]; intros bm bs sc; cbn [check_loop].
  - split; [now rewrite app_nil_r|]. left. repeat split. constructor.
  - destruct (Qltb bs (sim k0)) eqn:E.
    + apply Qltb_lt in E.
      destruct (IH (Some k0) (sim k0) (sc ++ [(k0, sim k0)])) as [S [(B & V & A)|X]].
      * split; [rewrite S, <- app_assoc; reflexivity|]. right.
        exists [], k0, rest.
        split; [reflexivity|]. split; [exact B|]. split; [exact V|].
        split; [exact E|]. split; [constructor|exact A].
      * destruct X as (pre & k & post & K & B & V & L & P1 & P2).
        split; [rewrite S, <- app_assoc; reflexivity|]. right.
        exists (k0 :: pre), k, post.
        split; [now rewrite K|]. split; [exact B|]. split; [exact V|].
        split; [now apply Qlt_trans with (sim k0)|].
        split; [constructor; assumption|exact P2].
    + apply Qltb_ge in E.
      destruct (IH bm bs (sc ++ [(k0, sim k0)])) as [S [(B & V & A)|X]].
      * split; [rewrite S, <- app_assoc; reflexivity|]. left.
        split; [exact B|]. split; [exact V|]. constructor; assumption.
      * destruct X as (pre & k & post & K & B & V & L & P1 & P2).
        split; [rewrite S, <- app_assoc; reflexivity|]. right.
        exists (k0 :: pre), k, post.
        split; [now rewrite K|]. split; [exact B|]. split; [exact V|].
        split; [exact L|]. split; [|exact P2].
        constructor; [|assumption]. now apply Qle_lt_trans with bs.
Qed.
End CheckFacts.

Section CheckVerdicts.
Variable U : UnicodeData.
Variable similarity_threshold : Q.
Variable new_name : str.

Abbreviation score_of k := (fst (calculate_similarity U new_name k)).
Abbreviation verdict topics :=
  (check_against_existing U similarity_threshold new_name topics).

Lemma verdict_unfold (e : str * Z) (rest : list (str * Z)) :
  let r := check_loop U new_name (map fst (e :: rest)) None 0%Q [] in
  verdict (e :: rest)
  = {| is_duplicate := Qle_bool similarity_threshold (snd (fst r));
       similar_topic := if Qle_bool similarity_threshold (snd (fst r))
                        then fst (fst r) else None;
       similarity := snd (fst r);
       all_scores := snd r |}.
Proof.
  unfold check_against_existing.
  now destruct (check_loop U new_name (map fst (e :: rest)) None 0%Q []) as [[bm bs] sc].
Qed.

(** A duplicate verdict names the first key whose score is the greatest,
    and that score has reached the threshold. *)
Theorem duplicate_verdict_names_first_best (topics : list (str * Z)) :
  (0 < similarity_threshold)%Q ->
  is_duplicate (check_against_existing U similarity_threshold new_name topics) = true ->
  exists pre k post,
    map fst topics = pre ++ k :: post
    /\ similar_topic (check_against_existing U similarity_threshold new_name topics) = Some k
    /\ similarity (check_against_existing U similarity_threshold new_name topics) = fst (calculate_similarity U new_name k)
    /\ (similarity_threshold <= fst (calculate_similarity U new_name k))%Q
    /\ Forall (fun k' => (fst (calculate_similarity U new_name k') < fst (calculate_similarity U new_name k))%Q) pre
    /\ Forall (fun k' => (fst (calculate_similarity U new_name k') <= fst (calculate_similarity U new_name k))%Q) post.
Proof.
  intros Ht. destruct topics as [|e rest]; [discriminate|].
  rewrite verdict_unfold. cbn [is_duplicate similar_topic similarity].
  intros D. rewrite D.
  destruct (check_loop_spec U new_name (map fst (e :: rest)) None 0%Q [])
    as [_ [(B & V & A)|X]].
  - rewrite V in D. apply Qle_bool_iff in D. exfalso. exact (Qlt_not_le _ _ Ht D).
  - destruct X as (pre & k & post & K & B & V & L & P1 & P2).
    exists pre, k, post. rewrite V in D. apply Qle_bool_iff in D.
    repeat split; assumption.
Qed.

(** The verdict is "not a duplicate" exactly when every key of the
    registry scores below the threshold; no similar topic is named then. *)
Theorem unique_verdict_iff_all_below (topics : list (str * Z)) :
  (is_duplicate (check_against_existing U similarity_threshold new_name topics) = false
   <-> Forall (fun e => (fst (calculate_similarity U new_name (fst e)) < similarity_threshold)%Q) topics)
  /\ (is_duplicate (check_against_existing U similarity_threshold new_name topics) = false -> similar_topic (check_against_existing U similarity_threshold new_name topics) = None).
Proof.
  destruct topics as [|e rest]; [repeat split; constructor|].
  rewrite verdict_unfold. cbn [is_duplicate similar_topic].
  split; [|now intros ->].
  destruct (check_loop_spec U new_name (map fst (e :: rest)) None 0%Q []) as [_ H].
  set (best := snd (fst (check_loop U new_name (map fst (e :: rest)) None 0%Q []))) in *.
  assert (Forall (fun k => (score_of k <= best)%Q) (map fst (e :: rest))) as Hmax.
  { destruct H as [(_ & V & A)|(pre & k & post & K & _ & V & _ & P1 & P2)].
    - now rewrite V.
    - rewrite K, V. apply Forall_app. split.
      + eapply Forall_impl; [exact P1|]. intros x Hx. now apply Qlt_le_weak.
      + constructor; [apply Qle_refl|exact P2]. }
  assert (exists k, In k (map fst (e :: rest)) /\ (best <= score_of k)%Q) as (k1 & Hin & Hk1).
  { destruct H as [(_ & V & _)|(pre & k & post & K & _ & V & _)].
    - exists (fst e). split; [now left|]. rewrite V.
      apply (calculate_similarity_unit U new_name (fst e)).
    - exists k. split; [rewrite K; apply in_or_app; right; now left|].
      rewrite V. apply Qle_refl. }
  split.
  - intros D. apply not_true_iff_false in D.
    assert (best < similarity_threshold)%Q as Hb
      by (apply Qnot_le_lt; intros L; apply D; now apply Qle_bool_iff).
    rewrite List.Forall_forall in Hmax. apply List.Forall_forall. intros x Hx.
    apply Qle_lt_trans with best; [|exact Hb].
    apply Hmax. now apply in_map.
  - intros A. apply not_true_iff_false. intros D. apply Qle_bool_iff in D.
    rewrite List.Forall_forall in A.
    apply in_map_iff in Hin as (e1 & <- & He1).
    specialize (A e1 He1). lra.
Qed.

Lemma verdict_scores (topics : list (str * Z)) :
  all_scores (verdict topics) = map (fun e => (fst e, score_of (fst e))) topics
  /\ Forall (fun e => (snd e <= similarity (verdict topics))%Q) (all_scores (verdict topics))
  /\ (0 <= similarity (verdict topics) <= 1)%Q.
Proof.
  destruct topics as [|e rest]; [repeat split; try constructor; discriminate|].
  rewrite verdict_unfold. cbn [all_scores similarity].
  destruct (check_loop_spec U new_name (map fst (e :: rest)) None 0%Q []) as [S H].
  rewrite S. cbn [app]. rewrite map_map.
  split; [reflexivity|].
  set (best := snd (fst (check_loop U new_name (map fst (e :: rest)) None 0%Q []))) in *.
  split.
  - apply List.Forall_forall. intros x Hx. apply in_map_iff in Hx as (e1 & <- & He1).
    cbn [snd].
    destruct H as [(_ & V & A)|(pre & k & post & K & _ & V & _ & P1 & P2)].
    + rewrite V. rewrite List.Forall_forall in A. apply A. now apply in_map.
    + assert (In (fst e1) (pre ++ k :: post)) as Hin by (rewrite <- K; now apply in_map).
      rewrite V. apply in_app_or in Hin as [Hin|[<-|Hin]].
      * rewrite List.Forall_forall in P1. now apply Qlt_le_weak, P1.
      * apply Qle_refl.
      * rewrite List.Forall_forall in P2. now apply P2.
  - destruct H as [(_ & V & _)|(pre & k & post & _ & _ & V & _)]; rewrite V.
    + split; discriminate.
    + apply calculate_similarity_unit.
Qed.

(** [all_scores] lists every key of the registry, in registry order, with
    its score; [similarity] is at least each of them and lies between 0
    and 1. *)
Theorem verdict_scores_catalogue (topics : list (str * Z)) :
  all_scores (check_against_existing U similarity_threshold new_name topics)
  = map (fun e => (fst e, fst (calculate_similarity U new_name (fst e)))) topics
  /\ Forall (fun e =>
        (snd e <= similarity (check_against_existing U similarity_threshold new_name topics))%Q)
       (all_scores (check_against_existing U similarity_threshold new_name topics))
  /\ (0 <= similarity (check_against_existing U similarity_threshold new_name topics) <= 1)%Q.
Proof. exact (verdict_scores topics). Qed.
End CheckVerdicts.

(** ** The clusters of [find_duplicates_in_list] *)

Lemma filter_sublist_of {A} (f : A -> bool) (l : list A) : sublist (List.filter f l) l.
Proof.
  induction l as [|x l IH]; simpl; [constructor|].
  destruct (f x); now constructor.
Qed.

Section ClusterFacts.
Variable U : UnicodeData.
Variable t : Q.

Abbreviation dup := (duplicate_of U t).

Lemma gather_spec (name1 : str) (later : list str) : forall group processed,
  NoDup later ->
  gather U t name1 later group processed
  = (group ++ picked U t name1 later processed,
     list_to_set (picked U t name1 later processed) ∪ processed).
Proof.
  induction later as [|name2 rest IH]; intros group processed Hnd; cbn [gather].
  - unfold picked. simpl. rewrite app_nil_r. f_equal. apply leibniz_equiv. set_unfold. tauto.
  - inversion Hnd as [|x l Hnotin Hnd']; subst.
    unfold picked. cbn [List.filter]. fold (duplicate_of U t name1 name2).
    destruct (bool_decide (name2 ∈ processed)) eqn:Ein; cbn [negb andb].
    + apply IH. exact Hnd'.
    + destruct (dup name1 name2) eqn:Ed.
      * rewrite IH by exact Hnd'. unfold picked.
        assert (List.filter
                  (fun n => negb (bool_decide (n ∈ {[name2]} ∪ processed)) && dup name1 n) rest
                = List.filter
                  (fun n => negb (bool_decide (n ∈ processed)) && dup name1 n) rest) as ->.
        { apply filter_ext_in. intros n Hn. f_equal. f_equal.
          apply bool_decide_ext. set_unfold. split; [|tauto].
          intros [E|H]; [subst n; apply list_elem_of_In in Hn; contradiction|exact H]. }
        rewrite <- app_assoc. f_equal.
        apply leibniz_equiv. set_unfold. intros x. tauto.
      * apply IH. exact Hnd'.
Qed.

Lemma picked_in (name1 : str) (later : list str) (processed : gset str) (x : str) :
  In x (picked U t name1 later processed) ->
  In x later /\ (x ∉ processed) /\ dup name1 x = true.
Proof.
  unfold picked. intros H. apply filter_In in H as [Hin Hp].
  apply andb_true_iff in Hp as [Hn Hd]. apply negb_true_iff in Hn.
  apply bool_decide_eq_false in Hn. auto.
Qed.
End ClusterFacts.

Section ClusterInvariants.
Variable U : UnicodeData.
Variable t : Q.

Lemma picked_elem_of (name1 : str) (later : list str) (processed : gset str) (x : str) :
  x ∈ picked U t name1 later processed ->
  x ∈ later /\ (x ∉ processed) /\ duplicate_of U t name1 x = true.
Proof.
  intros H. apply list_elem_of_In, picked_in in H as (H1 & H2 & H3).
  apply list_elem_of_In in H1. auto.
Qed.

Lemma cluster_of_later (name1 : str) (later group : list str) :
  cluster_of U t later group -> cluster_of U t (name1 :: later) group.
Proof.
  intros (head & members & E & Hne & Hs & Hd).
  exists head, members. repeat split; auto. now apply sublist_cons.
Qed.

(** What the outer loop adds to the clusters it starts with. *)
Lemma groups_loop_spec (names : list str) : forall groups processed,
  NoDup names -> processed = list_to_set (concat groups) ->
  exists new,
    groups_loop U t names groups processed = groups ++ new
    /\ Forall (cluster_of U t names) new
    /\ NoDup (concat new)
    /\ (forall x, x ∈ concat new -> x ∈ names /\ (x ∉ processed)).
Proof.
  induction names as [|name1 later IH]; intros groups processed Hnd Hp; cbn [groups_loop].
  - exists []. rewrite app_nil_r. repeat split; try constructor.
    + simpl in H. now apply elem_of_nil in H.
    + simpl in H. now apply elem_of_nil in H.
  - pose proof (NoDup_cons_1_2 _ _ Hnd) as Hnd'.
    destruct (bool_decide (name1 ∈ processed)) eqn:E.
    + destruct (IH groups processed Hnd' Hp) as (new & R & C & N & M).
      exists new. split; [exact R|]. split; [|split; [exact N|]].
      * eapply Forall_impl; [exact C|]. intros g. apply cluster_of_later.
      * intros x Hx. destruct (M x Hx) as [M1 M2]. split; [now apply elem_of_cons; right|exact M2].
    + apply bool_decide_eq_false in E.
      rewrite gather_spec by exact Hnd'.
      pose proof (picked_elem_of name1 later processed) as Hpk.
      pose proof (filter_sublist_of
                    (fun name2 => negb (bool_decide (name2 ∈ processed))
                                  && duplicate_of U t name1 name2) later) as Hsub.
      fold (picked U t name1 later processed) in Hsub.
      destruct (picked U t name1 later processed) as [|m ms] eqn:Epk.
      * cbn [app length Nat.ltb Nat.leb].
        assert (list_to_set [] ∪ processed = processed) as ->
          by (apply leibniz_equiv; set_unfold; tauto).
        destruct (IH groups processed Hnd' Hp) as (new & R & C & N & M).
        exists new. split; [exact R|]. split; [|split; [exact N|]].
        -- eapply Forall_impl; [exact C|]. intros g. apply cluster_of_later.
        -- intros x Hx. destruct (M x Hx) as [M1 M2].
           split; [now apply elem_of_cons; right|exact M2].
      * cbn [app length Nat.ltb Nat.leb].
        set (g := name1 :: m :: ms).
        set (processed2 := {[name1]} ∪ (list_to_set (m :: ms) ∪ processed)).
        assert (processed2 = list_to_set (concat (groups ++ [g]))) as Hp2.
        { subst processed2 g. rewrite concat_app. cbn [concat]. rewrite app_nil_r.
          rewrite list_to_set_app_L, <- Hp.
          apply leibniz_equiv. set_unfold. intros x. tauto. }
        destruct (IH (groups ++ [g]) processed2 Hnd' Hp2) as (new & R & C & N & M).
        exists (g :: new).
        split; [rewrite R, <- app_assoc; reflexivity|].
        assert (forall x, x ∈ g -> x ∈ name1 :: later /\ (x ∉ processed) /\ x ∈ processed2) as Hg.
        { intros x Hx. subst g processed2. apply elem_of_cons in Hx as [->|Hx].
          - split; [now left|]. split; [exact E|]. set_unfold. tauto.
          - destruct (Hpk x Hx) as (H1 & H2 & _).
            split; [now apply elem_of_cons; right|]. split; [exact H2|].
            set_unfold. tauto. }
        split; [|split].
        -- constructor.
           ++ exists name1, (m :: ms). split; [reflexivity|]. split; [discriminate|].
              split; [now apply sublist_skip|].
              apply Forall_forall. intros x Hx. now apply Hpk.
           ++ eapply Forall_impl; [exact C|]. intros g'. apply cluster_of_later.
        -- cbn [concat]. apply NoDup_app. split; [|split; [|exact N]].
           ++ apply (sublist_NoDup g (name1 :: later)); [exact Hnd|now apply sublist_skip].
           ++ intros x Hx Hx'. destruct (Hg x Hx) as (_ & _ & H3).
              destruct (M x Hx') as [_ H4]. contradiction.
        -- intros x Hx. cbn [concat] in Hx. apply elem_of_app in Hx as [Hx|Hx].
           ++ destruct (Hg x Hx) as (H1 & H2 & _). auto.
           ++ destruct (M x Hx) as [M1 M2].
              split; [now apply elem_of_cons; right|].
              intros Hin. apply M2. subst processed2. set_unfold. tauto.
Qed.

(** Every cluster has a first name and at least one more, all of them keys
    of the registry in registry order, each later name being a duplicate of
    the first; and no name occurs in two clusters, or twice in one. *)
Theorem clusters_are_disjoint_stars (topics : list (str * Z)) :
  NoDup (map fst topics) ->
  Forall (cluster_of U t (map fst topics)) (find_duplicates_in_list U t topics)
  /\ NoDup (concat (find_duplicates_in_list U t topics)).
Proof.
  intros Hnd. unfold find_duplicates_in_list.
  destruct (groups_loop_spec (map fst topics) [] ∅ Hnd) as (new & R & C & N & _).
  - reflexivity.
  - rewrite R. auto.
Qed.
End ClusterInvariants.

Section ClusterAbsence.
Variable U : UnicodeData.
Variable t : Q.

Lemma groups_loop_prefix (names : list str) : forall groups processed,
  exists new, groups_loop U t names groups processed = groups ++ new.
Proof.
  induction names as [|name1 later IH]; intros groups processed; cbn [groups_loop].
  - exists []. now rewrite app_nil_r.
  - destruct (bool_decide (name1 ∈ processed)); [apply IH|].
    destruct (gather U t name1 later [name1] processed) as [group processed'].
    destruct (1 <? length group)%nat; [|apply IH].
    destruct (IH (groups ++ [group]) ({[name1]} ∪ processed')) as [new R].
    exists (group :: new). now rewrite R, <- app_assoc.
Qed.

Lemma picked_nil_iff (name1 : str) (later : list str) :
  picked U t name1 later ∅ = []
  <-> Forall (fun name2 => duplicate_of U t name1 name2 = false) later.
Proof.
  unfold picked. induction later as [|x l IH]; simpl; [split; auto|].
  rewrite (bool_decide_eq_false_2 (x ∈ (∅ : gset str))) by (set_unfold; tauto).
  simpl. destruct (duplicate_of U t name1 x) eqn:E.
  - split; [discriminate|]. intros H. inversion H; congruence.
  - rewrite IH. split; [now constructor|]. intros H. now inversion H.
Qed.

(** No cluster is reported exactly when no key of the registry is a
    duplicate of a later key. *)
Theorem no_cluster_iff_no_duplicate_pair (topics : list (str * Z)) :
  NoDup (map fst topics) ->
  find_duplicates_in_list U t topics = []
  <-> ForallOrdPairs (fun x y => duplicate_of U t x y = false) (map fst topics).
Proof.
  unfold find_duplicates_in_list. generalize (map fst topics). clear topics.
  induction l as [|name1 later IH]; intros Hnd; cbn [groups_loop].
  - split; [constructor|reflexivity].
  - pose proof (NoDup_cons_1_2 _ _ Hnd) as Hnd'.
    rewrite (bool_decide_eq_false_2 (name1 ∈ (∅ : gset str))) by (set_unfold; tauto).
    rewrite gather_spec by exact Hnd'.
    pose proof (picked_nil_iff name1 later) as Hnil.
    destruct (picked U t name1 later ∅) as [|m ms] eqn:Epk.
    + cbn [app length Nat.ltb Nat.leb].
      assert (list_to_set [] ∪ ∅ = (∅ : gset str)) as ->
        by (apply leibniz_equiv; set_unfold; tauto).
      rewrite (IH Hnd'). split.
      * intros H. constructor; [now apply Hnil|exact H].
      * intros H. now inversion H.
    + cbn [app length Nat.ltb Nat.leb].
      destruct (groups_loop_prefix later [name1 :: m :: ms]
                  ({[name1]} ∪ (list_to_set (m :: ms) ∪ ∅))) as [new ->].
      split; [discriminate|].
      intros H. inversion H as [|a l' Hall _]; subst.
      apply Hnil in Hall. discriminate.
Qed.
End ClusterAbsence.

(** ** The registry over time *)

Section RegistryFacts.
Variable U : UnicodeData.
Variable create_forum_topic : str -> create_result.
Variable write_ok : bool.

Abbreviation resolve_topic := (get_or_create_topic U create_forum_topic write_ok).
Abbreviation canon_of := (bot_normalize_topic_name U).

Lemma find_topic_None (name : str) (ts : list (str * Z)) :
  find_topic U (canon_of name) ts = None -> unmatched U name ts.
Proof.
  unfold find_topic, unmatched. intros H. apply List.Forall_forall. intros e He.
  pose proof (find_none _ _ H e He) as Hf. unfold str_eqb in Hf.
  now apply bool_decide_eq_false in Hf.
Qed.

Lemma find_topic_Some (name : str) (ts : list (str * Z)) (key : str) (handle : Z) :
  find_topic U (canon_of name) ts = Some (key, handle) ->
  exists pre post, ts = pre ++ (key, handle) :: post
                   /\ unmatched U name pre /\ canon_of key = canon_of name.
Proof.
  unfold find_topic, unmatched. induction ts as [|e ts IH]; cbn [List.find]; [discriminate|].
  unfold str_eqb at 1. destruct (bool_decide (canon_of (fst e) = canon_of name)) eqn:E.
  - intros [= ->]. apply bool_decide_eq_true in E.
    exists [], ts. repeat split; [constructor|exact E].
  - intros H. apply bool_decide_eq_false in E.
    destruct (IH H) as (pre & post & -> & Hpre & Hk).
    exists (e :: pre), post. repeat split; [now constructor|exact Hk].
Qed.

(** The two ways a call can go: an entry with the canonical form of the
    name exists and is returned, or none exists and creation is tried. *)
Lemma resolve_cases (st : bot_state) (chat_id : Z) (name : str) :
  (exists pre key handle post,
      topics st = pre ++ (key, handle) :: post
      /\ unmatched U name pre /\ canon_of key = canon_of name
      /\ resolve_topic st chat_id name = (Some handle, st))
  \/ (unmatched U name (topics st)
      /\ ((fst (resolve_topic st chat_id name) = None
           /\ topics (snd (resolve_topic st chat_id name)) = topics st
           /\ topics_file (snd (resolve_topic st chat_id name)) = topics_file st)
          \/ (exists t,
                fst (resolve_topic st chat_id name) = Some t
                /\ topics (snd (resolve_topic st chat_id name)) = topics st ++ [(name, t)]))
      /\ created (snd (resolve_topic st chat_id name)) = created st ++ [take 128 name]).
Proof.
  destruct (find_topic U (canon_of name) (topics st)) as [[key handle]|] eqn:F.
  - left. destruct (find_topic_Some _ _ _ _ F) as (pre & post & T & Hpre & Hk).
    exists pre, key, handle, post. repeat split; auto.
    unfold get_or_create_topic. now rewrite F.
  - right. pose proof (find_topic_None _ _ F) as Hn.
    split; [exact Hn|]. rewrite (resolve_unmatched U create_forum_topic write_ok st chat_id name Hn).
    cbn zeta. destruct (create_forum_topic (take 128 name)) as [|topic].
    + split; [left; repeat split|reflexivity].
    + destruct (message_thread_id topic) as [t1|], (thread_id topic) as [t2|],
        (id topic) as [t3|]; unfold save_topics; destruct write_ok; cbn;
        (split; [|reflexivity]);
        first [ right; eexists; split; reflexivity | left; repeat split ].
Qed.

(** The registry only grows, and by at most one entry a call: the earlier
    entries stay as they are, in their order; a call that returns [None]
    adds nothing; a new entry is keyed by the raw name and carries the
    thread id that the call returns. *)
Theorem registry_only_grows (st : bot_state) (chat_id : Z) (name : str) :
  let r := resolve_topic st chat_id name in
  (topics (snd r) = topics st
   \/ exists t, fst r = Some t /\ topics (snd r) = topics st ++ [(name, t)])
  /\ (fst r = None -> topics (snd r) = topics st).
Proof.
  cbn zeta.
  destruct (resolve_cases st chat_id name)
    as [(pre & key & handle & post & T & Hpre & Hk & R)|(Hn & [(F & T & _)|(t & F & T)] & _)].
  - rewrite R. split; [now left|reflexivity].
  - split; [now left|now intros _].
  - split; [right; now exists t|]. rewrite F. discriminate.
Qed.

(** A thread id that is returned is registered, under a key that has the
    canonical form of the name asked for. *)
Theorem returned_handle_is_registered (st : bot_state) (chat_id : Z) (name : str) (handle : Z) :
  fst (resolve_topic st chat_id name) = Some handle ->
  exists key,
    In (key, handle) (topics (snd (resolve_topic st chat_id name)))
    /\ canon_of key = canon_of name.
Proof.
  destruct (resolve_cases st chat_id name)
    as [(pre & key & h & post & T & Hpre & Hk & R)|(Hn & [(F & T & _)|(t & F & T)] & _)].
  - rewrite R. cbn. intros [= ->]. exists key. split; [|exact Hk].
    rewrite T. apply in_or_app. right. now left.
  - rewrite F. discriminate.
  - rewrite F, T. intros [= ->]. exists name. split; [|reflexivity].
    apply in_or_app. right. now left.
Qed.

(** Once a name has been resolved to a thread id, every name with the same
    canonical form resolves to that thread id, without a creation call and
    without a change of state. *)
Theorem resolve_is_stable (st : bot_state) (chat_id chat_id' : Z) (name name' : str) (handle : Z) :
  fst (resolve_topic st chat_id name) = Some handle ->
  canon_of name' = canon_of name ->
  resolve_topic (snd (resolve_topic st chat_id name)) chat_id' name'
  = (Some handle, snd (resolve_topic st chat_id name)).
Proof.
  intros F Hc.
  destruct (resolve_cases st chat_id name)
    as [(pre & key & h & post & T & Hpre & Hk & R)|(Hn & [(F' & _)|(t & F' & T)] & _)].
  - rewrite R in *. cbn in F. injection F as ->. cbn [snd].
    unfold get_or_create_topic. rewrite T, Hc.
    rewrite (find_topic_first U name pre key handle post Hpre Hk). reflexivity.
  - congruence.
  - rewrite F' in F. injection F as ->.
    unfold get_or_create_topic at 1. rewrite T, Hc.
    rewrite (find_topic_first U name (topics st) name handle [] Hn eq_refl). reflexivity.
Qed.

(** If no two keys of the registry share a canonical form, that is still
    so after a call. *)
Theorem canonical_forms_stay_distinct (st : bot_state) (chat_id : Z) (name : str) :
  NoDup (map (fun e => canon_of (fst e)) (topics st)) ->
  NoDup (map (fun e => canon_of (fst e)) (topics (snd (resolve_topic st chat_id name)))).
Proof.
  intros Hnd.
  destruct (resolve_cases st chat_id name)
    as [(pre & key & h & post & T & Hpre & Hk & R)|(Hn & [(F & T & _)|(t & F & T)] & _)].
  - now rewrite R.
  - now rewrite T.
  - rewrite T, map_app. cbn [map]. apply NoDup_app. split; [exact Hnd|]. split.
    + intros x Hx Hx'. apply elem_of_cons in Hx' as [->|Hx']; [|now apply elem_of_nil in Hx'].
      apply list_elem_of_In, in_map_iff in Hx as (e & He & Hin).
      unfold unmatched in Hn. rewrite List.Forall_forall in Hn. exact (Hn e Hin He).
    + apply NoDup_singleton.
Qed.

(** Topic creation is called when, and only when, no key has the canonical
    form of the name: once, with the first 128 characters of the raw
    name. *)
Theorem creation_called_iff_unmatched (st : bot_state) (chat_id : Z) (name : str) :
  let r := resolve_topic st chat_id name in
  (unmatched U name (topics st)
   /\ created (snd r) = created st ++ [take 128 name]
   /\ (length (take 128 name) <= 128)%nat
   /\ take 128 name `prefix_of` name)
  \/ (~ unmatched U name (topics st) /\ created (snd r) = created st).
Proof.
  cbn zeta.
  destruct (resolve_cases st chat_id name)
    as [(pre & key & h & post & T & Hpre & Hk & R)|(Hn & _ & C)].
  - right. rewrite R. split; [|reflexivity].
    unfold unmatched. rewrite T, List.Forall_forall. intros H.
    apply (H (key, h)); [apply in_or_app; right; now left|exact Hk].
  - left. split; [exact Hn|]. split; [exact C|]. split.
    + rewrite length_take. lia.
    + apply prefix_take.
Qed.
End RegistryFacts.

(** ** The theorems above at concrete registries *)

Lemma duplicate_verdict_names_first_best_witness :
  let topics := [(py "News Chat Group", 100%Z); (py "Music New", 101%Z);
                 (py "music new", 102%Z)] in
  let verdict := check_against_existing Latin1.db 0.85 (py "MUSIC NEW!") topics in
  let score_of k := fst (calculate_similarity Latin1.db (py "MUSIC NEW!") k) in
  exists pre k post,
    map fst topics = pre ++ k :: post
    /\ similar_topic verdict = Some k
    /\ similarity verdict = score_of k
    /\ (0.85 <= score_of k)%Q
    /\ Forall (fun k' => (score_of k' < score_of k)%Q) pre
    /\ Forall (fun k' => (score_of k' <= score_of k)%Q) post.
Proof.
  apply (duplicate_verdict_names_first_best Latin1.db 0.85 (py "MUSIC NEW!")
           [(py "News Chat Group", 100%Z); (py "Music New", 101%Z); (py "music new", 102%Z)]).
  - reflexivity.
  - vm_compute. reflexivity.
Defined.

Example music_new_first_of_two_best :
  similar_topic (check_against_existing Latin1.db 0.85 (py "MUSIC NEW!")
                   [(py "News Chat Group", 100%Z); (py "Music New", 101%Z);
                    (py "music new", 102%Z)])
  = Some (py "Music New").
Proof. vm_compute. reflexivity. Qed.

Lemma clusters_are_disjoint_stars_witness :
  let topics := [(py "Daily News", 1%Z); (py "Music", 2%Z); (py "Daily News 2", 3%Z);
                 (py "music!", 4%Z); (py "Daily News 2 3 4", 5%Z)] in
  Forall (cluster_of Latin1.db 0.85 (map fst topics))
         (find_duplicates_in_list Latin1.db 0.85 topics)
  /\ NoDup (concat (find_duplicates_in_list Latin1.db 0.85 topics)).
Proof.
  apply (clusters_are_disjoint_stars Latin1.db 0.85).
  apply (bool_decide_unpack _). vm_compute. exact I.
Defined.

Example two_clusters :
  find_duplicates_in_list Latin1.db 0.85
    [(py "Daily News", 1%Z); (py "Music", 2%Z); (py "Daily News 2", 3%Z);
     (py "music!", 4%Z); (py "Daily News 2 3 4", 5%Z)]
  = [[py "Daily News"; py "Daily News 2"]; [py "Music"; py "music!"]].
Proof. vm_compute. reflexivity. Qed.

Lemma no_cluster_iff_no_duplicate_pair_witness :
  let topics := [(py "Daily News", 1%Z); (py "Music", 2%Z); (py "Sports", 3%Z)] in
  find_duplicates_in_list Latin1.db 0.85 topics = []
  <-> ForallOrdPairs (fun x y => duplicate_of Latin1.db 0.85 x y = false) (map fst topics).
Proof.
  apply (no_cluster_iff_no_duplicate_pair Latin1.db 0.85).
  apply (bool_decide_unpack _). vm_compute. exact I.
Defined.

Lemma returned_handle_is_registered_witness :
  let registry := [(py "News Chat Group", 100%Z); (py "Music New", 101%Z)] in
  let st := {| topics := registry; topics_file := Some registry; created := [] |} in
  let r := get_or_create_topic Latin1.db thread_202 true st 7 (py "Sports!") in
  exists key,
    In (key, 202%Z) (topics (snd r))
    /\ bot_normalize_topic_name Latin1.db key = bot_normalize_topic_name Latin1.db (py "Sports!").
Proof.
  apply (returned_handle_is_registered Latin1.db thread_202 true
           {| topics := [(py "News Chat Group", 100%Z); (py "Music New", 101%Z)];
              topics_file := Some [(py "News Chat Group", 100%Z); (py "Music New", 101%Z)];
              created := [] |} 7 (py "Sports!") 202%Z).
  vm_compute. reflexivity.
Defined.

Lemma resolve_is_stable_witness :
  let registry := [(py "News Chat Group", 100%Z); (py "Music New", 101%Z)] in
  let st := {| topics := registry; topics_file := Some registry; created := [] |} in
  let st' := snd (get_or_create_topic Latin1.db thread_202 true st 7 (py "Sports!")) in
  get_or_create_topic Latin1.db thread_202 true st' 8 (py "  sports ") = (Some 202%Z, st').
Proof.
  apply (resolve_is_stable Latin1.db thread_202 true
           {| topics := [(py "News Chat Group", 100%Z); (py "Music New", 101%Z)];
              topics_file := Some [(py "News Chat Group", 100%Z); (py "Music New", 101%Z)];
              created := [] |} 7 8 (py "Sports!") (py "  sports ") 202%Z).
  - vm_compute. reflexivity.
  - vm_compute. reflexivity.
Defined.

Lemma canonical_forms_stay_distinct_witness :
  let registry := [(py "News Chat Group", 100%Z); (py "Music New", 101%Z)] in
  let st := {| topics := registry; topics_file := Some registry; created := [] |} in
  NoDup (map (fun e => bot_normalize_topic_name Latin1.db (fst e))
             (topics (snd (get_or_create_topic Latin1.db thread_202 true st 7 (py "Sports!"))))).
Proof.
  apply (canonical_forms_stay_distinct Latin1.db thread_202 true
           {| topics := [(py "News Chat Group", 100%Z); (py "Music New", 101%Z)];
              topics_file := Some [(py "News Chat Group", 100%Z); (py "Music New", 101%Z)];
              created := [] |} 7 (py "Sports!")).
  apply (bool_decide_unpack _). vm_compute. exact I.
Defined.

(** ** More on the two normalisers *)

Lemma lower_char_is_word c : is_word (lower_char c) = is_word c.
Proof.
  unfold lower_char. destruct (is_upper c) eqn:E; [|reflexivity].
  assert (is_word c = true) as -> by char_arith. char_arith.
Qed.

Lemma lower_char_is_ascii c : is_ascii (lower_char c) = is_ascii c.
Proof.
  unfold lower_char. destruct (is_upper c) eqn:E; [|reflexivity].
  assert (is_ascii c = true) as -> by char_arith. char_arith.
Qed.

Lemma lower_char_blank : lower_char 32 = 32.
Proof. reflexivity. Qed.

Lemma lower_idem s : lower (lower s) = lower s.
Proof. apply lower_fixed, lower_no_upper. Qed.

Lemma sub_punct_lower s : sub_punct (lower s) = lower (sub_punct s).
Proof.
  unfold sub_punct, lower. rewrite !map_map. apply map_ext. intros c.
  rewrite lower_char_is_word, lower_char_space.
  now destruct (is_word c || is_space c).
Qed.

Lemma sub_runs_lower b s : sub_runs b (lower s) = lower (sub_runs b s).
Proof.
  revert b. induction s as [|c t IH]; intros b; simpl; [reflexivity|].
  rewrite lower_char_space. destruct (is_space c).
  - destruct b; simpl; now rewrite IH.
  - simpl. now rewrite IH.
Qed.

Lemma ascii_only_lower s : ascii_only (lower s) = lower (ascii_only s).
Proof.
  unfold ascii_only, lower. rewrite !map_map. apply map_ext. intros c.
  rewrite lower_char_is_ascii. now destruct (is_ascii c).
Qed.

Lemma lower_ascii s : forallb is_ascii s = true -> forallb is_ascii (lower s) = true.
Proof.
  unfold lower. induction s as [|c t IH]; simpl; [reflexivity|].
  intros H. apply andb_true_iff in H as [Hc Ht].
  now rewrite lower_char_is_ascii, Hc, IH.
Qed.

Section NormalizerAgreement.
Variable U : UnicodeData.
Hypothesis laws : UnicodeAsciiLaws U.

(** On ASCII names both normalisers are the same chain of steps. *)
Lemma normalize_ascii (x : str) :
  forallb is_ascii x = true ->
  normalize_topic_name U x
  = match x with
    | [] => []
    | _ => lower (strip (sub_runs false (sub_punct (ascii_only x))))
    end.
Proof.
  intros Ha. destruct x as [|c t]; [reflexivity|].
  unfold normalize_topic_name.
  rewrite (nfd_ascii U laws _ Ha), (strip_marks_ascii U laws _ Ha), (nfc_ascii U laws _ Ha).
  cbn [fold_left cleanup_patterns re_sub]. unfold sub_edges.
  destruct (stripped_runs_tidy (ascii_only (c :: t))) as [Ht Hr].
  apply canonical_strip_fixed. now apply lower_canonical.
Qed.

Lemma bot_normalize_ascii (x : str) :
  forallb is_ascii x = true ->
  bot_normalize_topic_name U x
  = match x with
    | [] => []
    | _ => lower (strip (sub_runs false (sub_punct (ascii_only x))))
    end.
Proof.
  intros Ha. destruct x as [|c t]; [reflexivity|].
  unfold bot_normalize_topic_name.
  now rewrite (nfd_ascii U laws _ Ha), (strip_marks_ascii U laws _ Ha).
Qed.

(** The normaliser of the detector and the normaliser of the bot give
    the same canonical form to every ASCII name. *)
Theorem normalizers_agree_on_ascii (x : str) :
  forallb is_ascii x = true ->
  normalize_topic_name U x = bot_normalize_topic_name U x.
Proof. intros Ha. now rewrite normalize_ascii, bot_normalize_ascii. Qed.

(** The canonical form of an ASCII name does not depend on the case of
    its letters: lowering the name first changes nothing, for either
    normaliser. *)
Theorem normalize_ignores_ascii_case (x : str) :
  forallb is_ascii x = true ->
  normalize_topic_name U (lower x) = normalize_topic_name U x
  /\ bot_normalize_topic_name U (lower x) = bot_normalize_topic_name U x.
Proof.
  intros Ha. pose proof (lower_ascii x Ha) as Hl.
  rewrite !bot_normalize_ascii by assumption.
  assert (normalize_topic_name U (lower x) = normalize_topic_name U x) as E.
  2: { split; [exact E|]. now rewrite !normalize_ascii in E by assumption. }
  rewrite !normalize_ascii by assumption.
  destruct x as [|c t]; [reflexivity|]. cbn [lower map].
  change (lower_char c :: map lower_char t) with (lower (c :: t)).
  rewrite ascii_only_lower, sub_punct_lower, sub_runs_lower.
  unfold strip. now rewrite lstrip_lower, rstrip_lower, lower_idem.
Qed.

(** Scoring two canonical forms gives what scoring the raw names gives,
    score and details, as long as neither canonical form is empty. *)
Theorem score_of_canonical_forms (name1 name2 : str) :
  normalize_topic_name U name1 <> [] -> normalize_topic_name U name2 <> [] ->
  calculate_similarity U (normalize_topic_name U name1) (normalize_topic_name U name2)
  = calculate_similarity U name1 name2.
Proof.
  intros H1 H2.
  assert (name1 <> []) as N1 by (intros ->; now apply H1).
  assert (name2 <> []) as N2 by (intros ->; now apply H2).
  unfold calculate_similarity, extract_keywords.
  rewrite !(canonical_normalize_fixed U laws _ (normalize_canonical U _)).
  destruct (normalize_topic_name U name1) as [|a1 t1] eqn:E1; [congruence|].
  destruct (normalize_topic_name U name2) as [|a2 t2] eqn:E2; [congruence|].
  destruct name1 as [|c1 r1]; [congruence|]. destruct name2 as [|c2 r2]; [congruence|].
  reflexivity.
Qed.
End NormalizerAgreement.

Lemma normalizers_agree_on_ascii_witness :
  normalize_topic_name Latin1.db (py "Hagarth's BBW/SSBBW")
  = bot_normalize_topic_name Latin1.db (py "Hagarth's BBW/SSBBW").
Proof.
  apply (normalizers_agree_on_ascii Latin1.db Latin1_laws). reflexivity.
Defined.

Lemma normalize_ignores_ascii_case_witness :
  normalize_topic_name Latin1.db (lower (py "Daily NEWS")) = normalize_topic_name Latin1.db (py "Daily NEWS")
  /\ bot_normalize_topic_name Latin1.db (lower (py "Daily NEWS"))
     = bot_normalize_topic_name Latin1.db (py "Daily NEWS").
Proof.
  apply (normalize_ignores_ascii_case Latin1.db Latin1_laws). reflexivity.
Defined.

Lemma score_of_canonical_forms_witness :
  calculate_similarity Latin1.db (normalize_topic_name Latin1.db (py "Daily News!"))
                                 (normalize_topic_name Latin1.db (py "DAILY news 2"))
  = calculate_similarity Latin1.db (py "Daily News!") (py "DAILY news 2").
Proof.
  apply (score_of_canonical_forms Latin1.db Latin1_laws); vm_compute; discriminate.
Defined.

(** ** Keywords *)

Lemma split_from_words (s : str) : forall cur w,
  Forall (fun c => is_space c = false) cur ->
  In w (split_from cur s) ->
  w <> [] /\ Forall (fun c => is_space c = false /\ (In c cur \/ In c s)) w.
Proof.
  assert (forall cur : str, cur <> [] -> Forall (fun c => is_space c = false) cur ->
            forall s', rev cur <> []
                       /\ Forall (fun c => is_space c = false /\ (In c cur \/ In c s')) (rev cur))
    as Hrev.
  { intros cur Hne Hc s'. split.
    - intros E. apply (f_equal (@rev N)) in E. rewrite rev_involutive in E. now apply Hne.
    - apply List.Forall_forall. intros c Hin. apply in_rev in Hin.
      rewrite List.Forall_forall in Hc. split; [now apply Hc|now left]. }
  induction s as [|c t IH]; intros cur w Hc Hw; cbn [split_from] in Hw.
  - destruct cur as [|d cur']; [contradiction|].
    destruct Hw as [<-|[]]. now apply Hrev.
  - destruct (is_space c) eqn:E.
    + assert (In w (split_from [] t) ->
              w <> [] /\ Forall (fun c0 => is_space c0 = false /\ (In c0 cur \/ In c0 (c :: t))) w)
        as Hrest.
      { intros H. destruct (IH [] w (List.Forall_nil _) H) as [Hne Hall]. split; [exact Hne|].
        eapply Forall_impl; [exact Hall|]. intros x [Hx [[]|Hin]].
        split; [exact Hx|right; now right]. }
      destruct cur as [|d cur']; [now apply Hrest|].
      destruct Hw as [<-|Hw]; [now apply Hrev|now apply Hrest].
    + destruct (IH (c :: cur) w) as [Hne Hall]; [now constructor|exact Hw|].
      split; [exact Hne|].
      eapply Forall_impl; [exact Hall|]. intros x [Hx [[<-|Hin]|Hin]].
      * split; [exact Hx|right; now left].
      * split; [exact Hx|now left].
      * split; [exact Hx|right; now right].
Qed.

(** Every keyword is a token of the canonical form, has at least two
    characters, is not a stop word, and is made of lower-case letters,
    digits and underscores only. *)
Theorem keywords_are_plain_words (U : UnicodeData) (name w : str) :
  w ∈ extract_keywords U name ->
  In w (split (normalize_topic_name U name))
  /\ (2 <= length w)%nat
  /\ (w ∉ stop_words)
  /\ forallb (fun c => is_lower c || is_digit c || (c =? 95)) w = true.
Proof.
  unfold extract_keywords. intros H.
  apply elem_of_filter in H as [[Hlen Hstop] Hin].
  apply elem_of_list_to_set, list_elem_of_In in Hin.
  repeat split; auto.
  destruct (split_from_words (normalize_topic_name U name) [] w (List.Forall_nil _) Hin) as [_ Hall].
  pose proof (canonical_chars _ (normalize_canonical U name)) as Hc.
  rewrite forallb_forall in Hc. apply forallb_forall. intros c Hcw.
  rewrite List.Forall_forall in Hall. destruct (Hall c Hcw) as [Hsp [[]|Hcn]].
  specialize (Hc c Hcn). unfold canon_char in Hc.
  destruct (c =? 32) eqn:E32.
  - apply N.eqb_eq in E32. subst c. discriminate.
  - now rewrite orb_false_r in Hc.
Qed.

Lemma keywords_are_plain_words_witness :
  In (py "news") (split (normalize_topic_name Latin1.db (py "The Daily NEWS channel!")))
  /\ (2 <= length (py "news"))%nat
  /\ (py "news" ∉ stop_words)
  /\ forallb (fun c => is_lower c || is_digit c || (c =? 95)) (py "news") = true.
Proof.
  apply (keywords_are_plain_words Latin1.db (py "The Daily NEWS channel!") (py "news")).
  apply (bool_decide_unpack _). vm_compute. exact I.
Defined.

Example daily_news_keywords :
  extract_keywords Latin1.db (py "The Daily NEWS channel! a b")
  = list_to_set [py "daily"; py "news"].
Proof. apply (bool_decide_unpack _). vm_compute. exact I. Qed.

(** ** Edge cases of the verdicts *)

(** An empty name scores 0.0 against everything; at a positive threshold
    it is a duplicate of nothing, and [check_against_existing] never
    reports it, whatever the registry. *)
Theorem empty_name_is_never_a_duplicate
        (U : UnicodeData) (threshold : Q) (other : str) (topics : list (str * Z)) :
  (0 < threshold)%Q ->
  are_duplicates U threshold [] other = (false, 0%Q, EmptyInput)
  /\ are_duplicates U threshold other [] = (false, 0%Q, EmptyInput)
  /\ is_duplicate (check_against_existing U threshold [] topics) = false
  /\ similar_topic (check_against_existing U threshold [] topics) = None.
Proof.
  intros Ht.
  assert (Qle_bool threshold 0 = false) as E.
  { apply not_true_iff_false. intros H. apply Qle_bool_iff in H.
    exact (Qlt_not_le _ _ Ht H). }
  split; [unfold are_duplicates; simpl; now rewrite E|].
  split; [unfold are_duplicates; destruct other; simpl; now rewrite E|].
  destruct topics as [|e rest]; [now split|].
  rewrite verdict_unfold. cbn [is_duplicate similar_topic].
  destruct (check_loop_spec U [] (map fst (e :: rest)) None 0%Q [])
    as [_ [(_ & -> & _)|(pre & k & post & _ & _ & _ & L & _)]].
  - now rewrite E.
  - exfalso. now apply (Qlt_irrefl 0).
Qed.

Lemma empty_name_is_never_a_duplicate_witness :
  are_duplicates Latin1.db 0.85 [] (py "Music") = (false, 0%Q, EmptyInput)
  /\ are_duplicates Latin1.db 0.85 (py "Music") [] = (false, 0%Q, EmptyInput)
  /\ is_duplicate (check_against_existing Latin1.db 0.85 [] [(py "Music", 1%Z)]) = false
  /\ similar_topic (check_against_existing Latin1.db 0.85 [] [(py "Music", 1%Z)]) = None.
Proof.
  apply (empty_name_is_never_a_duplicate Latin1.db 0.85 (py "Music") [(py "Music", 1%Z)]).
  reflexivity.
Defined.

(** A non-empty name that has the canonical form of a non-empty key of
    the registry is reported as a duplicate at every threshold up to 1.0,
    with similarity 1.0. *)
Theorem cosmetic_variant_is_flagged
        (U : UnicodeData) (threshold : Q) (name key : str) (handle : Z)
        (topics : list (str * Z)) :
  (threshold <= 1)%Q -> name <> [] -> key <> [] ->
  In (key, handle) topics ->
  normalize_topic_name U key = normalize_topic_name U name ->
  is_duplicate (check_against_existing U threshold name topics) = true
  /\ (similarity (check_against_existing U threshold name topics) == 1)%Q.
Proof.
  intros Ht Hn Hk Hin Hc.
  assert (fst (calculate_similarity U name key) = 1%Q) as S1.
  { unfold calculate_similarity, str_eqb.
    destruct name as [|c1 t1]; [congruence|]. destruct key as [|c2 t2]; [congruence|].
    now rewrite bool_decide_eq_true_2. }
  destruct (verdict_scores U threshold name topics) as (Hs & Hmax & _ & Hle).
  assert (1 <= similarity (check_against_existing U threshold name topics))%Q as Hge.
  { rewrite List.Forall_forall in Hmax.
    specialize (Hmax (key, fst (calculate_similarity U name key))).
    rewrite S1 in Hmax. apply Hmax. rewrite Hs.
    apply in_map_iff. exists (key, handle). split; [cbn [fst]; now rewrite S1|exact Hin]. }
  assert (similarity (check_against_existing U threshold name topics) == 1)%Q as E
    by (apply Qle_antisym; assumption).
  split; [|exact E].
  destruct topics as [|e rest]; [contradiction|].
  rewrite verdict_unfold in *. cbn [is_duplicate similarity] in *.
  apply Qle_bool_iff. now apply Qle_trans with 1%Q.
Qed.

Lemma cosmetic_variant_is_flagged_witness :
  let topics := [(py "News Chat Group", 100%Z); (py "Music New", 101%Z)] in
  is_duplicate (check_against_existing Latin1.db 0.85 (py "music-new!") topics) = true
  /\ (similarity (check_against_existing Latin1.db 0.85 (py "music-new!") topics) == 1)%Q.
Proof.
  apply (cosmetic_variant_is_flagged Latin1.db 0.85 (py "music-new!") (py "Music New") 101%Z
           [(py "News Chat Group", 100%Z); (py "Music New", 101%Z)]).
  - vm_compute. discriminate.
  - discriminate.
  - discriminate.
  - right. now left.
  - reflexivity.
Defined.

(** ** The registry file between two runs *)

(** What [save_topics] wrote is what [load_topics] returns at the next
    start, keys and thread ids in the same order, unless the first key
    begins with a dash: the whole registry is then taken for the old
    format and the bot starts with an empty one. *)
Theorem saved_registry_reloads (st : bot_state) :
  load_topics (read_topics_file (topics_file (save_topics true st)))
  = if dash_first (topics st) then Returns (JObject [])
    else Returns (registry_json (topics st)).
Proof.
  unfold save_topics. cbn [topics_file read_topics_file].
  destruct (topics st) as [|[key thread] rest]; [reflexivity|].
  cbn [dash_first registry_json map load_topics truthy fst snd].
  now destruct (startswith key (py "-")).
Qed.

(** A first topic named [-= Music =-] is written to the file and dropped
    at the next start. *)
Example dash_topic_is_forgotten :
  let st := {| topics := []; topics_file := None; created := [] |} in
  let answer := fun _ : str =>
    CreateReturns {| message_thread_id := Some 7%Z; thread_id := None; id := None |} in
  let st' := snd (get_or_create_topic Latin1.db answer true st (-1001)%Z (py "-= Music =-")) in
  topics st' = [(py "-= Music =-", 7%Z)]
  /\ topics_file st' = Some [(py "-= Music =-", 7%Z)]
  /\ load_topics (read_topics_file (topics_file st')) = Returns (JObject []).
Proof. repeat split; reflexivity. Qed.

(** When the file mirrors the registry before a call of
    [get_or_create_topic] and the registry file can be written, the file
    mirrors the registry after the call: a topic that was created is on
    disk when the call returns. *)
Theorem registry_file_tracks_memory
        (U : UnicodeData) (create_forum_topic : str -> create_result)
        (st : bot_state) (chat_id : Z) (name : str) :
  topics_file st = Some (topics st) ->
  let st' := snd (get_or_create_topic U create_forum_topic true st chat_id name) in
  topics_file st' = Some (topics st').
Proof.
  intros Hsync. unfold get_or_create_topic.
  destruct (find_topic U (bot_normalize_topic_name U name) (topics st)) as [[k t]|].
  - exact Hsync.
  - destruct (create_forum_topic (take 128 name)) as [|topic].
    + exact Hsync.
    + destruct (message_thread_id topic), (thread_id topic), (id topic);
        solve [reflexivity | exact Hsync].
Qed.

Lemma registry_file_tracks_memory_witness :
  let registry := [(py "Daily News", 101%Z)] in
  let st := {| topics := registry; topics_file := Some registry; created := [] |} in
  let answer := fun _ : str =>
    CreateReturns {| message_thread_id := Some 202%Z; thread_id := None; id := None |} in
  let st' := snd (get_or_create_topic Latin1.db answer true st (-1001)%Z (py "Music")) in
  topics_file st' = Some (topics st').
Proof.
  apply (registry_file_tracks_memory Latin1.db
           (fun _ => CreateReturns {| message_thread_id := Some 202%Z;
                                      thread_id := None; id := None |})
           {| topics := [(py "Daily News", 101%Z)];
              topics_file := Some [(py "Daily News", 101%Z)]; created := [] |}
           (-1001)%Z (py "Music")).
  reflexivity.
Defined.

(** ** The activity log and the counters *)

Lemma obj_get_set (d : list (str * json)) (k : str) (v : json) (k' : str) :
  obj_get (obj_set d k v) k' = if str_eqb k k' then Some v else obj_get d k'.
Proof.
  unfold str_eqb. induction d as [|[k0 v0] rest IH]; cbn [obj_set obj_get]; unfold str_eqb.
  - now destruct (bool_decide (k = k')).
  - destruct (bool_decide (k0 = k)) eqn:E0; cbn [obj_get]; unfold str_eqb.
    + apply bool_decide_eq_true in E0. subst k0.
      now destruct (bool_decide (k = k')).
    + apply bool_decide_eq_false in E0.
      destruct (bool_decide (k0 = k')) eqn:E1; [|exact IH].
      apply bool_decide_eq_true in E1. subst k0.
      now rewrite bool_decide_eq_false_2.
Qed.

Lemma obj_get_setdefault (d : list (str * json)) (k : str) (v : json) (k' : str) :
  obj_get (setdefault d k v) k'
  = match obj_get d k' with
    | Some x => Some x
    | None => if str_eqb k k' then Some v else None
    end.
Proof.
  unfold setdefault. destruct (obj_get d k) as [x|] eqn:E.
  - destruct (obj_get d k') eqn:E'; [reflexivity|].
    unfold str_eqb. destruct (bool_decide (k = k')) eqn:B; [|reflexivity].
    apply bool_decide_eq_true in B. congruence.
  - rewrite obj_get_set. unfold str_eqb. destruct (bool_decide (k = k')) eqn:B.
    + apply bool_decide_eq_true in B. subst k'. now rewrite E.
    + now destruct (obj_get d k').
Qed.

(** Comparisons of two literal keys are computed. *)
Ltac eval_keys :=
  repeat match goal with
  | |- context [str_eqb (py ?a) (py ?b)] =>
      let r := eval vm_compute in (str_eqb (py a) (py b)) in
      change (str_eqb (py a) (py b)) with r
  | H : context [str_eqb (py ?a) (py ?b)] |- _ =>
      let r := eval vm_compute in (str_eqb (py a) (py b)) in
      change (str_eqb (py a) (py b)) with r in H
  end.

Lemma str_eqb_ne (a b : str) : a <> b -> str_eqb a b = false.
Proof. intros H. unfold str_eqb. now apply bool_decide_eq_false_2. Qed.

Lemma str_eqb_refl (a : str) : str_eqb a a = true.
Proof. unfold str_eqb. now apply bool_decide_eq_true_2. Qed.

Lemma last_n_snoc {A} (old : list A) (x : A) :
  last_n 1000 (old ++ [x]) = skipn (length old - 999) old ++ [x].
Proof.
  unfold last_n. rewrite length_app. cbn [length].
  replace (length old + 1 - 1000)%nat with (length old - 999)%nat by lia.
  rewrite skipn_app.
  replace (length old - 999 - length old)%nat with O by lia. reflexivity.
Qed.

Lemma increment_int (d : list (str * json)) (k : str) (z : Z) :
  obj_get d k = Some (JInt z) -> increment d k = Some (obj_set d k (JInt (z + 1))).
Proof. intros E. unfold increment. now rewrite E. Qed.

Section LoggerFacts.
Variable now : str.
Variable write_stats : write_result.

(** When the log file can be read and written, it holds afterwards the
    new entry at its end, preceded by the last 999 entries it had (all of
    them if there were fewer): at most 1000 entries, whatever becomes of
    the statistics. *)
Theorem activity_log_keeps_last_1000
        (fs : log_files) (source_topic media_type : str) (message_id : Z) (status : str)
        (old : list json) :
  read_logs (logs_file fs) = Some old ->
  let entry := log_entry now source_topic media_type message_id status in
  let fs' := log_forwarded_media now Written write_stats fs source_topic media_type
                                 message_id status in
  exists kept,
    logs_file fs' = Some (ReadParsed (JArray (kept ++ [entry])))
    /\ kept `suffix_of` old
    /\ length kept = Nat.min 999 (length old).
Proof.
  intros Hold entry fs'. exists (skipn (length old - 999) old).
  split; [|split].
  - subst fs'. unfold log_forwarded_media. rewrite Hold.
    fold entry. rewrite last_n_snoc. cbn [stats_file].
    destruct (read_stats (stats_file fs)) as [stats|]; [|reflexivity].
    destruct (update_stats stats source_topic); [|reflexivity].
    now destruct write_stats.
  - exists (firstn (length old - 999) old). now rewrite firstn_skipn.
  - rewrite length_skipn. lia.
Qed.

(** When both files can be read and written and the counters are
    integers, the three message counters and the count of the source each
    go up by one (a counter that was missing counts for 0); the counts of
    the other sources and the other keys of the file stay as they are. *)
Theorem counters_go_up_by_one
        (fs : log_files) (source_topic media_type : str) (message_id : Z) (status : str)
        (old : list json) (d t : list (str * json)) (total today week n : Z) :
  read_logs (logs_file fs) = Some old ->
  read_stats (stats_file fs) = Some d ->
  counter d (py "total_messages") = Some total ->
  counter d (py "today_messages") = Some today ->
  counter d (py "week_messages") = Some week ->
  topic_counts d = Some t ->
  counter t source_topic = Some n ->
  exists d' t',
    stats_file (log_forwarded_media now Written Written fs source_topic media_type
                                    message_id status)
    = Some (ReadParsed (JObject d'))
    /\ obj_get d' (py "total_messages") = Some (JInt (total + 1))
    /\ obj_get d' (py "today_messages") = Some (JInt (today + 1))
    /\ obj_get d' (py "week_messages") = Some (JInt (week + 1))
    /\ obj_get d' (py "topics") = Some (JObject t')
    /\ obj_get t' source_topic = Some (JInt (n + 1))
    /\ (forall other, other <> source_topic -> obj_get t' other = obj_get t other)
    /\ (forall key, key <> py "total_messages" -> key <> py "today_messages" ->
                    key <> py "week_messages" -> key <> py "topics" ->
                    obj_get d' key = obj_get d key).
Proof.
  intros Hold Hd Htotal Htoday Hweek Ht Hn.
  unfold log_forwarded_media. rewrite Hold. cbn [stats_file]. rewrite Hd.
  unfold update_stats. cbv zeta.
  set (d4 := setdefault (setdefault (setdefault (setdefault d _ _) _ _) _ _) _ _).
  assert (obj_get d4 (py "total_messages") = Some (JInt total)) as E1.
  { subst d4. rewrite !obj_get_setdefault. eval_keys. unfold counter in Htotal.
    destruct (obj_get d (py "total_messages")) as [[]|]; congruence. }
  assert (obj_get d4 (py "today_messages") = Some (JInt today)) as E2.
  { subst d4. rewrite !obj_get_setdefault. eval_keys. unfold counter in Htoday.
    destruct (obj_get d (py "today_messages")) as [[]|]; congruence. }
  assert (obj_get d4 (py "week_messages") = Some (JInt week)) as E3.
  { subst d4. rewrite !obj_get_setdefault. eval_keys. unfold counter in Hweek.
    destruct (obj_get d (py "week_messages")) as [[]|]; congruence. }
  assert (obj_get d4 (py "topics") = Some (JObject t)) as E4.
  { subst d4. rewrite !obj_get_setdefault. eval_keys. unfold topic_counts in Ht.
    destruct (obj_get d (py "topics")) as [[]|]; congruence. }
  assert (forall key, key <> py "total_messages" -> key <> py "today_messages" ->
                      key <> py "week_messages" -> key <> py "topics" ->
                      obj_get d4 key = obj_get d key) as E5.
  { intros key K1 K2 K3 K4. subst d4. rewrite !obj_get_setdefault.
    rewrite !str_eqb_ne by congruence. now destruct (obj_get d key). }
  clearbody d4.
  rewrite (increment_int d4 _ total E1). cbn [mbind option_bind].
  rewrite (increment_int _ _ today) by (rewrite !obj_get_set; eval_keys; exact E2).
  cbn [mbind option_bind].
  rewrite (increment_int _ _ week) by (rewrite !obj_get_set; eval_keys; exact E3).
  cbn [mbind option_bind].
  rewrite !obj_get_set. eval_keys. rewrite E4.
  set (t0 := match obj_get t source_topic with
             | Some _ => t
             | None => obj_set t source_topic (JInt 0)
             end).
  assert (obj_get t0 source_topic = Some (JInt n)) as E6.
  { subst t0. unfold counter in Hn.
    destruct (obj_get t source_topic) as [v|] eqn:Ev.
    - rewrite Ev. destruct v; congruence.
    - rewrite obj_get_set, str_eqb_refl. congruence. }
  assert (forall other, other <> source_topic -> obj_get t0 other = obj_get t other) as E7.
  { intros other Ho. subst t0. destruct (obj_get t source_topic); [reflexivity|].
    rewrite obj_get_set, str_eqb_ne by congruence. reflexivity. }
  clearbody t0.
  rewrite (increment_int t0 _ n E6). cbn [mbind option_bind].
  eexists _, _. split; [reflexivity|].
  split; [rewrite !obj_get_set; eval_keys; reflexivity|].
  split; [rewrite !obj_get_set; eval_keys; reflexivity|].
  split; [rewrite !obj_get_set; eval_keys; reflexivity|].
  split; [rewrite !obj_get_set; eval_keys; reflexivity|].
  split; [now rewrite obj_get_set, str_eqb_refl|].
  split.
  - intros other Ho. rewrite obj_get_set, str_eqb_ne by congruence. now apply E7.
  - intros key K1 K2 K3 K4. rewrite !obj_get_set.
    rewrite !str_eqb_ne by congruence. now apply E5.
Qed.
End LoggerFacts.

Lemma activity_log_keeps_last_1000_witness :
  let entry := log_entry (py "2024-05-01T10:00:00") (py "Music") (py "photo") 42%Z (py "success") in
  let fs := {| logs_file := Some (ReadParsed (JArray [JInt 1; JInt 2])); stats_file := None |} in
  let fs' := log_forwarded_media (py "2024-05-01T10:00:00") Written Written fs (py "Music")
                                 (py "photo") 42%Z (py "success") in
  exists kept,
    logs_file fs' = Some (ReadParsed (JArray (kept ++ [entry])))
    /\ kept `suffix_of` [JInt 1; JInt 2]
    /\ length kept = Nat.min 999 (length [JInt 1; JInt 2]).
Proof.
  apply (activity_log_keeps_last_1000 (py "2024-05-01T10:00:00") Written
           {| logs_file := Some (ReadParsed (JArray [JInt 1; JInt 2])); stats_file := None |}
           (py "Music") (py "photo") 42%Z (py "success") [JInt 1; JInt 2]).
  reflexivity.
Defined.

Lemma counters_go_up_by_one_witness :
  let stats := [(py "total_messages", JInt 7); (py "topics", JObject [(py "News", JInt 7)]);
                (py "uptime", JString (py "3h"))] in
  let fs := {| logs_file := None; stats_file := Some (ReadParsed (JObject stats)) |} in
  exists d' t',
    stats_file (log_forwarded_media (py "2024-05-01T10:00:00") Written Written fs (py "Music")
                                    (py "photo") 42%Z (py "success"))
    = Some (ReadParsed (JObject d'))
    /\ obj_get d' (py "total_messages") = Some (JInt (7 + 1))
    /\ obj_get d' (py "today_messages") = Some (JInt (0 + 1))
    /\ obj_get d' (py "week_messages") = Some (JInt (0 + 1))
    /\ obj_get d' (py "topics") = Some (JObject t')
    /\ obj_get t' (py "Music") = Some (JInt (0 + 1))
    /\ (forall other, other <> py "Music" ->
                      obj_get t' other = obj_get [(py "News", JInt 7)] other)
    /\ (forall key, key <> py "total_messages" -> key <> py "today_messages" ->
                    key <> py "week_messages" -> key <> py "topics" ->
                    obj_get d' key = obj_get stats key).
Proof.
  apply (counters_go_up_by_one (py "2024-05-01T10:00:00")
           {| logs_file := None;
              stats_file := Some (ReadParsed (JObject
                [(py "total_messages", JInt 7); (py "topics", JObject [(py "News", JInt 7)]);
                 (py "uptime", JString (py "3h"))])) |}
           (py "Music") (py "photo") 42%Z (py "success") []
           [(py "total_messages", JInt 7); (py "topics", JObject [(py "News", JInt 7)]);
            (py "uptime", JString (py "3h"))]
           [(py "News", JInt 7)] 7%Z 0%Z 0%Z 0%Z); reflexivity.
Defined.

(** The call at a fresh directory: one log entry, every counter at 1. *)
Example first_message_logged :
  log_forwarded_media (py "2024-05-01T10:00:00") Written Written
    {| logs_file := None; stats_file := None |} (py "Music") (py "photo") 42%Z (py "success")
  = {| logs_file := Some (ReadParsed (JArray
         [log_entry (py "2024-05-01T10:00:00") (py "Music") (py "photo") 42%Z (py "success")]));
       stats_file := Some (ReadParsed (JObject
         [(py "total_messages", JInt 1); (py "today_messages", JInt 1);
          (py "week_messages", JInt 1); (py "topics", JObject [(py "Music", JInt 1)])])) |}.
Proof. reflexivity. Qed.

Lemma add_one_countable (v : json) :
  countable (Some v) = true -> exists v', add_one v = Some v'.
Proof. destruct v; try discriminate; intros _; eexists; reflexivity. Qed.

Lemma add_one_uncountable (v : json) :
  countable (Some v) = false -> add_one v = None.
Proof. destruct v; try discriminate; reflexivity. Qed.

Lemma increment_some (d : list (str * json)) (k : str) (v : json) :
  obj_get d k = Some v -> countable (Some v) = true ->
  exists v', increment d k = Some (obj_set d k v').
Proof.
  intros E C. destruct (add_one_countable v C) as [v' A]. exists v'.
  unfold increment. rewrite E. cbn [mbind option_bind]. now rewrite A.
Qed.

Lemma increment_none (d : list (str * json)) (k : str) (v : json) :
  obj_get d k = Some v -> countable (Some v) = false -> increment d k = None.
Proof.
  intros E C. unfold increment. rewrite E. cbn [mbind option_bind].
  now rewrite (add_one_uncountable v C).
Qed.

Lemma countable_default (o : option json) (v0 : json) :
  countable (Some v0) = true ->
  exists v, match o with Some x => Some x | None => Some v0 end = Some v
            /\ countable (Some v) = countable o.
Proof. intros C. destruct o as [x|]; [now exists x|now exists v0]. Qed.

(** The statements on [stats] raise exactly when a counter holds
    something that is not a number, or ["topics"] something that is not a
    dict. *)
Lemma update_stats_usable (d : list (str * json)) (source_topic : str) :
  if stats_usable d source_topic
  then exists d', update_stats d source_topic = Some d'
  else update_stats d source_topic = None.
Proof.
  unfold update_stats, stats_usable. cbv zeta.
  set (d4 := setdefault (setdefault (setdefault (setdefault d _ _) _ _) _ _) _ _).
  destruct (countable_default (obj_get d (py "total_messages")) (JInt 0) eq_refl)
    as (v1 & G1 & C1).
  destruct (countable_default (obj_get d (py "today_messages")) (JInt 0) eq_refl)
    as (v2 & G2 & C2).
  destruct (countable_default (obj_get d (py "week_messages")) (JInt 0) eq_refl)
    as (v3 & G3 & C3).
  assert (obj_get d4 (py "total_messages") = Some v1) as E1.
  { subst d4. rewrite !obj_get_setdefault. eval_keys. rewrite <- G1.
    now destruct (obj_get d (py "total_messages")). }
  assert (obj_get d4 (py "today_messages") = Some v2) as E2.
  { subst d4. rewrite !obj_get_setdefault. eval_keys. rewrite <- G2.
    now destruct (obj_get d (py "today_messages")). }
  assert (obj_get d4 (py "week_messages") = Some v3) as E3.
  { subst d4. rewrite !obj_get_setdefault. eval_keys. rewrite <- G3.
    now destruct (obj_get d (py "week_messages")). }
  assert (obj_get d4 (py "topics")
          = Some (match obj_get d (py "topics") with Some x => x | None => JObject [] end))
    as E4.
  { subst d4. rewrite !obj_get_setdefault. eval_keys.
    now destruct (obj_get d (py "topics")). }
  clearbody d4. rewrite <- C1, <- C2, <- C3.
  destruct (countable (Some v1)) eqn:K1;
    [|now rewrite (increment_none d4 _ v1 E1 K1)].
  destruct (increment_some d4 _ v1 E1 K1) as [v1' ->]. cbn [mbind option_bind andb].
  assert (obj_get (obj_set d4 (py "total_messages") v1') (py "today_messages") = Some v2) as E2'
    by (rewrite obj_get_set; eval_keys; exact E2).
  destruct (countable (Some v2)) eqn:K2;
    [|now rewrite (increment_none _ _ v2 E2' K2)].
  destruct (increment_some _ _ v2 E2' K2) as [v2' ->]. cbn [mbind option_bind andb].
  assert (obj_get (obj_set (obj_set d4 (py "total_messages") v1') (py "today_messages") v2')
                  (py "week_messages") = Some v3) as E3'
    by (rewrite !obj_get_set; eval_keys; exact E3).
  destruct (countable (Some v3)) eqn:K3;
    [|now rewrite (increment_none _ _ v3 E3' K3)].
  destruct (increment_some _ _ v3 E3' K3) as [v3' ->]. cbn [mbind option_bind andb].
  rewrite !obj_get_set. eval_keys. rewrite E4.
  destruct (obj_get d (py "topics")) as [[| | | | | |t]|]; try reflexivity.
  - set (t0 := match obj_get t source_topic with
               | Some _ => t
               | None => obj_set t source_topic (JInt 0)
               end).
    destruct (countable_default (obj_get t source_topic) (JInt 0) eq_refl) as (v & G & C).
    assert (obj_get t0 source_topic = Some v) as E.
    { subst t0. destruct (obj_get t source_topic) as [x|] eqn:Ex.
      - now rewrite Ex.
      - now rewrite obj_get_set, str_eqb_refl. }
    rewrite <- C. destruct (countable (Some v)) eqn:K.
    + destruct (increment_some t0 _ v E K) as [v' ->]. cbn [mbind option_bind].
      eexists. reflexivity.
    + now rewrite (increment_none t0 _ v E K).
  - cbn [obj_get].
    rewrite (increment_int _ _ 0%Z) by (cbn [obj_set obj_get]; now rewrite str_eqb_refl).
    cbn [mbind option_bind]. eexists. reflexivity.
Qed.

(** A statistics file with a counter that is not a number, or whose
    ["topics"] is not a dict, is left as it is by every call, while the
    log still receives its entry; any other readable statistics file is
    rewritten. *)
Theorem unusable_stats_are_left_alone
        (now : str) (fs : log_files) (source_topic media_type : str) (message_id : Z)
        (status : str) (old : list json) (d : list (str * json)) :
  read_logs (logs_file fs) = Some old ->
  read_stats (stats_file fs) = Some d ->
  let fs' := log_forwarded_media now Written Written fs source_topic media_type
                                 message_id status in
  let entry := log_entry now source_topic media_type message_id status in
  logs_file fs' = Some (ReadParsed (JArray (last_n 1000 (old ++ [entry]))))
  /\ if stats_usable d source_topic
     then exists d', update_stats d source_topic = Some d'
                     /\ stats_file fs' = Some (ReadParsed (JObject d'))
     else stats_file fs' = stats_file fs.
Proof.
  intros Hold Hd. unfold log_forwarded_media. rewrite Hold. cbn [stats_file]. rewrite Hd.
  pose proof (update_stats_usable d source_topic) as H.
  destruct (stats_usable d source_topic).
  - destruct H as [d' ->]. split; [reflexivity|]. now exists d'.
  - rewrite H. now split.
Qed.

Lemma unusable_stats_are_left_alone_witness :
  let stats := [(py "total_messages", JString (py "12")); (py "topics", JObject [])] in
  let fs := {| logs_file := None; stats_file := Some (ReadParsed (JObject stats)) |} in
  let fs' := log_forwarded_media (py "2024-05-01T10:00:00") Written Written fs (py "Music")
                                 (py "photo") 42%Z (py "success") in
  let entry := log_entry (py "2024-05-01T10:00:00") (py "Music") (py "photo") 42%Z
                         (py "success") in
  logs_file fs' = Some (ReadParsed (JArray (last_n 1000 ([] ++ [entry]))))
  /\ if stats_usable stats (py "Music")
     then exists d', update_stats stats (py "Music") = Some d'
                     /\ stats_file fs' = Some (ReadParsed (JObject d'))
     else stats_file fs' = stats_file fs.
Proof.
  apply (unusable_stats_are_left_alone (py "2024-05-01T10:00:00")
           {| logs_file := None;
              stats_file := Some (ReadParsed (JObject
                [(py "total_messages", JString (py "12")); (py "topics", JObject [])])) |}
           (py "Music") (py "photo") 42%Z (py "success") []
           [(py "total_messages", JString (py "12")); (py "topics", JObject [])]);
    reflexivity.
Defined.

(** ** Relaying a message *)

Example chat_without_a_name :
  source_name_of {| message_id := 5; chat := {| chat_id := -1001234; title := Some [];
                                                 first_name := None; chat_type := py "channel" |};
                    caption := None; from_user := None; forward_from := false;
                    forward_from_chat := None; photo := []; video := None; document := None;
                    audio := None; voice := None; video_note := None; sticker := None;
                    animation := None |}
  = py "Chat_-1001234".
Proof. reflexivity. Qed.

Lemma sticker_only_no_fallback (m : message) :
  sticker_only m = true -> fallback_file_id m = None.
Proof.
  unfold sticker_only, fallback_file_id, has_photo.
  destruct (sticker m), (photo m), (video m), (document m), (audio m), (voice m),
           (video_note m), (animation m); cbn; congruence.
Qed.

Lemma deliveries_app (l1 l2 : list (api_call * bool)) :
  deliveries (l1 ++ l2) = deliveries l1 ++ deliveries l2.
Proof. apply omap_app. Qed.

Section RelayFacts.
Variable U : UnicodeData.
Variable BACKUP_GROUP_ID : Z.
Variable create_forum_topic : str -> create_result.
Variable copy : copy_result.
Variable download : str -> option (list N).
Variable send_ok write_ok tmp_ok unlink_ok : bool.
Variable now : str.
Variable write_logs write_stats : write_result.
Variable splitext_ext : str -> str.

Abbreviation resend :=
  (manual_resend BACKUP_GROUP_ID download send_ok tmp_ok unlink_ok now write_logs write_stats
                 splitext_ext).
Abbreviation log_success fs m :=
  (log_forwarded_media now write_logs write_stats fs (source_name_of m) (media_type m)
                       (message_id m) (py "success")).

(** A message with a file to download has its [send_...] call. *)
Lemma fallback_send (m : message) (f : str) (t : Z) (suffix : str) (content : list N) :
  fallback_file_id m = Some f ->
  exists kind,
    send_call BACKUP_GROUP_ID m t (caption m) suffix content
    = Some (send kind BACKUP_GROUP_ID t
                 (match kind with Voice | VideoNote => None | _ => caption m end)
                 suffix content).
Proof.
  unfold fallback_file_id, send_call, has_photo.
  destruct (photo m); [|intros _; now exists Photo].
  destruct (video m); [intros _; now exists Video|].
  destruct (document m); [intros _; now exists Document|].
  destruct (audio m); [intros _; now exists Audio|].
  destruct (voice m); [intros _; now exists Voice|].
  destruct (video_note m); [intros _; now exists VideoNote|].
  destruct (animation m); [intros _; now exists Animation|].
  discriminate.
Qed.

(** The manual resend, outcome by outcome. *)
Lemma manual_resend_spec (w : world) (m : message) (t : Z) :
  let r := resend w m t (source_name_of m) in
  exists new,
    calls (snd r) = calls w ++ new
    /\ bot (snd r) = bot w
    /\ Forall (fun e => is_copy (fst e) = false /\ call_for BACKUP_GROUP_ID t m (fst e)) new
    /\ (fallback_file_id m = None -> new = [] /\ fst r = false)
    /\ if fst r
       then (exists text, deliveries new = [(BACKUP_GROUP_ID, t, text)])
            /\ files (snd r) = log_success (files w) m
       else files (snd r) = files w
            /\ (deliveries new = []
                \/ unlink_ok = false
                   /\ exists text, deliveries new = [(BACKUP_GROUP_ID, t, text)]).
Proof.
  unfold manual_resend.
  destruct (fallback_file_id m) as [f|] eqn:Ef.
  2: { exists []. cbn. rewrite app_nil_r. repeat split; auto. }
  destruct (download f) as [content|] eqn:Ed.
  2: { exists [(get_file f, false)]. cbn.
       repeat split; auto; try discriminate; try (now repeat constructor). }
  cbv zeta.
  destruct ((length content =? 0)%nat || (length content <? 100)%nat) eqn:Esz.
  { exists [(get_file f, true)]. cbn.
    repeat split; auto; try discriminate; try (now repeat constructor). }
  assert (100 <= length content)%nat as Hsz.
  { apply orb_false_iff in Esz as [_ Esz]. now apply Nat.ltb_ge in Esz. }
  destruct tmp_ok; cbn [negb].
  2: { exists [(get_file f, true)]. cbn.
       repeat split; auto; try discriminate; try (now repeat constructor). }
  destruct (fallback_send m f t (suffix_of splitext_ext m) content Ef) as [kind ->].
  cbn [fst snd].
  set (c := send kind BACKUP_GROUP_ID t _ (suffix_of splitext_ext m) content).
  assert (call_for BACKUP_GROUP_ID t m c) as Hc by (subst c; cbn; auto).
  assert (is_copy c = false) as Hn by reflexivity.
  assert (forall b, Forall (fun e => is_copy (fst e) = false
                                     /\ call_for BACKUP_GROUP_ID t m (fst e))
                           [(get_file f, true); (c, b)]) as Hall
    by (intros b; repeat constructor; auto).
  destruct send_ok; cbn [negb].
  2: { exists [(get_file f, true); (c, false)]. cbn. rewrite <- app_assoc.
       repeat split; auto; try discriminate. }
  destruct unlink_ok; cbn [negb].
  - exists [(get_file f, true); (c, true)]. cbn. rewrite <- app_assoc.
    split; [reflexivity|]. split; [reflexivity|]. split; [apply Hall|].
    split; [discriminate|]. split; [|reflexivity]. subst c. eexists. reflexivity.
  - exists [(get_file f, true); (c, true)]. cbn. rewrite <- app_assoc.
    split; [reflexivity|]. split; [reflexivity|]. split; [apply Hall|].
    split; [discriminate|]. split; [reflexivity|]. right. split; [reflexivity|].
    subst c. eexists. reflexivity.
Qed.

(** [True] is returned after exactly one delivery, made to the thread of
    the source in the backup group and followed by the "success" entry of
    the log.  [False] is returned after no delivery at all, with one
    exception: when the temporary file cannot be removed, the message has
    been delivered, and it is neither logged nor reported. *)
Theorem relay_result_and_deliveries (w : world) (m : message) :
  let r := forward_media U BACKUP_GROUP_ID create_forum_topic copy download send_ok write_ok
                         tmp_ok unlink_ok now write_logs write_stats splitext_ext w m in
  exists new,
    calls (snd r) = calls w ++ new
    /\ if fst r
       then exists thread text,
              fst (get_or_create_topic U create_forum_topic write_ok (bot w)
                                       (chat_id (chat m)) (source_name_of m)) = Some thread
              /\ deliveries new = [(BACKUP_GROUP_ID, thread, text)]
              /\ files (snd r)
                 = log_forwarded_media now write_logs write_stats (files w) (source_name_of m)
                                       (media_type m) (message_id m) (py "success")
       else deliveries new = []
            \/ (unlink_ok = false /\ length (deliveries new) = 1%nat
                /\ files (snd r) = files w).
Proof.
  unfold forward_media. cbv zeta.
  destruct (get_or_create_topic U create_forum_topic write_ok (bot w) (chat_id (chat m))
                                (source_name_of m)) as [[thread|] st] eqn:Et; cbn [fst].
  2: { exists []. cbn. rewrite app_nil_r. split; [reflexivity|now left]. }
  assert (forall w0 pre, calls w0 = calls w ++ pre -> deliveries pre = [] ->
            files w0 = files w ->
            let r := resend w0 m thread (source_name_of m) in
            exists new,
              calls (snd r) = calls w ++ new
              /\ if fst r
                 then exists thread0 text,
                        Some thread = Some thread0
                        /\ deliveries new = [(BACKUP_GROUP_ID, thread0, text)]
                        /\ files (snd r) = log_success (files w) m
                 else deliveries new = []
                      \/ (unlink_ok = false /\ length (deliveries new) = 1%nat
                          /\ files (snd r) = files w)) as Hresend.
  { intros w0 pre Hcalls Hpre Hfiles.
    destruct (manual_resend_spec w0 m thread) as (new & Hnew & _ & _ & _ & Hres).
    cbv zeta. exists (pre ++ new). rewrite Hnew, Hcalls, <- app_assoc.
    split; [reflexivity|]. rewrite deliveries_app, Hpre. cbn [app].
    destruct (fst (resend w0 m thread (source_name_of m))).
    - destruct Hres as [[text Hd] Hf]. exists thread, text. rewrite Hf, Hfiles. auto.
    - destruct Hres as [Hf [Hd|[Hu [text Hd]]]]; [now left|right].
      rewrite Hd, Hf, Hfiles. auto. }
  destruct (is_forwarded m).
  - apply (Hresend _ []); [cbn; now rewrite app_nil_r|reflexivity|reflexivity].
  - destruct copy as [|[|]].
    + eexists [_]. cbn. split; [reflexivity|]. exists thread, (caption m). auto.
    + eexists [_]. cbn. split; [reflexivity|]. now left.
    + apply (Hresend _ [(copy_message BACKUP_GROUP_ID (chat_id (chat m)) (message_id m)
                                      thread (caption m), false)]); reflexivity.
Qed.

(** The first thing [forward_media] does is to resolve the topic, and
    that is all it does to the registry: the state of the bot afterwards,
    with the names passed to [create_forum_topic], is the one
    [get_or_create_topic] leaves.  When no topic comes out of it, nothing
    is copied, downloaded, sent or logged.  Otherwise a forwarded message
    is never copied, and for any other message the first call after the
    resolution is [copy_message], of this message with its caption into the
    thread of its source; a download or an upload follows only when that
    copy raises and its handler does not. *)
Theorem copy_comes_first_unless_forwarded (w : world) (m : message) :
  let r := forward_media U BACKUP_GROUP_ID create_forum_topic copy download send_ok write_ok
                         tmp_ok unlink_ok now write_logs write_stats splitext_ext w m in
  let resolved := get_or_create_topic U create_forum_topic write_ok (bot w)
                                      (chat_id (chat m)) (source_name_of m) in
  exists new,
    calls (snd r) = calls w ++ new
    /\ bot (snd r) = snd resolved
    /\ match fst resolved with
       | None => new = [] /\ fst r = false /\ files (snd r) = files w
       | Some thread =>
           if is_forwarded m
           then Forall (fun e => is_copy (fst e) = false) new
           else exists rest,
                  new = (copy_message BACKUP_GROUP_ID (chat_id (chat m)) (message_id m)
                                      thread (caption m),
                         match copy with Copied => true | CopyRaises _ => false end) :: rest
                  /\ Forall (fun e => is_copy (fst e) = false) rest
                  /\ (copy <> CopyRaises false -> rest = [])
       end.
Proof.
  unfold forward_media. cbv zeta.
  destruct (get_or_create_topic U create_forum_topic write_ok (bot w) (chat_id (chat m))
                                (source_name_of m)) as [[thread|] st] eqn:Et; cbn [fst snd].
  2: { exists []. cbn. now rewrite app_nil_r. }
  assert (forall w0, exists new,
            calls (snd (resend w0 m thread (source_name_of m))) = calls w0 ++ new
            /\ bot (snd (resend w0 m thread (source_name_of m))) = bot w0
            /\ Forall (fun e => is_copy (fst e) = false) new) as Hresend.
  { intros w0. destruct (manual_resend_spec w0 m thread) as (new & Hnew & Hbot & Hall & _).
    exists new. split; [exact Hnew|]. split; [exact Hbot|].
    eapply Forall_impl; [exact Hall|]. now intros e [He _]. }
  destruct (is_forwarded m).
  - match goal with |- context [resend ?w0] =>
      destruct (Hresend w0) as (new & Hnew & Hbot & Hall) end.
    exists new. split; [exact Hnew|]. split; [exact Hbot|exact Hall].
  - destruct copy as [|[|]].
    + eexists [_]. cbn. split; [reflexivity|]. split; [reflexivity|]. exists []. auto.
    + eexists [_]. cbn. split; [reflexivity|]. split; [reflexivity|]. exists []. auto.
    + match goal with |- context [resend ?w0] =>
        destruct (Hresend w0) as (new & Hnew & Hbot & Hall) end.
      eexists (_ :: new). rewrite Hnew, Hbot. cbn [calls bot called]. rewrite <- app_assoc.
      split; [reflexivity|]. split; [reflexivity|].
      exists new. split; [reflexivity|]. split; [exact Hall|]. congruence.
Qed.

(** A message whose only media is a sticker is never downloaded nor
    sent again: after the resolution of the topic, which is all that
    happens to the registry, the only call it can cause is [copy_message],
    and [True] is returned only for a sticker that is not forwarded and
    whose copy returns.  For a forwarded sticker the topic is resolved,
    created if need be, and then nothing is copied, sent or logged. *)
Theorem sticker_is_copied_or_dropped (w : world) (m : message) :
  sticker_only m = true ->
  let r := forward_media U BACKUP_GROUP_ID create_forum_topic copy download send_ok write_ok
                         tmp_ok unlink_ok now write_logs write_stats splitext_ext w m in
  exists new,
    calls (snd r) = calls w ++ new
    /\ bot (snd r) = snd (get_or_create_topic U create_forum_topic write_ok (bot w)
                                              (chat_id (chat m)) (source_name_of m))
    /\ Forall (fun e => is_copy (fst e) = true) new
    /\ (fst r = true -> is_forwarded m = false /\ copy = Copied)
    /\ (is_forwarded m = true -> new = [] /\ fst r = false /\ files (snd r) = files w).
Proof.
  intros Hs. apply sticker_only_no_fallback in Hs.
  unfold forward_media. cbv zeta.
  destruct (get_or_create_topic U create_forum_topic write_ok (bot w) (chat_id (chat m))
                                (source_name_of m)) as [[thread|] st] eqn:Et; cbn [snd].
  2: { exists []. cbn. rewrite app_nil_r. repeat split; auto; discriminate. }
  unfold manual_resend. rewrite Hs.
  destruct (is_forwarded m).
  - exists []. cbn. rewrite app_nil_r. repeat split; auto; discriminate.
  - destruct copy as [|[|]]; eexists [_]; cbn;
      (split; [reflexivity|]); (split; [reflexivity|]); (split; [now repeat constructor|]);
      split; solve [auto | discriminate].
Qed.

Lemma forward_media_calls (w : world) (m : message) :
  let r := forward_media U BACKUP_GROUP_ID create_forum_topic copy download send_ok write_ok
                         tmp_ok unlink_ok now write_logs write_stats splitext_ext w m in
  exists new,
    calls (snd r) = calls w ++ new
    /\ match fst (get_or_create_topic U create_forum_topic write_ok (bot w)
                                      (chat_id (chat m)) (source_name_of m)) with
       | None => new = []
       | Some thread => Forall (fun e => call_for BACKUP_GROUP_ID thread m (fst e)) new
       end.
Proof.
  unfold forward_media. cbv zeta.
  destruct (get_or_create_topic U create_forum_topic write_ok (bot w) (chat_id (chat m))
                                (source_name_of m)) as [[thread|] st] eqn:Et; cbn [fst].
  2: { exists []. cbn. now rewrite app_nil_r. }
  assert (forall w0, exists new,
            calls (snd (resend w0 m thread (source_name_of m))) = calls w0 ++ new
            /\ Forall (fun e => call_for BACKUP_GROUP_ID thread m (fst e)) new) as Hresend.
  { intros w0. destruct (manual_resend_spec w0 m thread) as (new & Hnew & _ & Hall & _).
    exists new. split; [exact Hnew|].
    eapply Forall_impl; [exact Hall|]. now intros e [_ He]. }
  destruct (is_forwarded m).
  - match goal with |- context [resend ?w0] => destruct (Hresend w0) as (new & Hnew & Hall) end.
    exists new. split; [exact Hnew|exact Hall].
  - destruct copy as [|[|]].
    + eexists [_]. cbn. split; [reflexivity|]. now repeat constructor.
    + eexists [_]. cbn. split; [reflexivity|]. now repeat constructor.
    + match goal with |- context [resend ?w0] => destruct (Hresend w0) as (new & Hnew & Hall) end.
      eexists (_ :: new). rewrite Hnew. cbn [calls called]. rewrite <- app_assoc.
      split; [reflexivity|]. constructor; [now cbn|exact Hall].
Qed.

(** Every call is about the message at hand: the copy is the copy of
    this message, with its caption, into the thread of its source; the
    file downloaded is the one picked for the message; what is sent goes to
    that same thread, has at least 100 bytes and carries the caption of the
    message, except for a voice message or a video note, sent without. *)
Theorem calls_are_for_the_message (w : world) (m : message) :
  let r := forward_media U BACKUP_GROUP_ID create_forum_topic copy download send_ok write_ok
                         tmp_ok unlink_ok now write_logs write_stats splitext_ext w m in
  exists new,
    calls (snd r) = calls w ++ new
    /\ match fst (get_or_create_topic U create_forum_topic write_ok (bot w)
                                      (chat_id (chat m)) (source_name_of m)) with
       | None => new = []
       | Some thread => Forall (fun e => call_for BACKUP_GROUP_ID thread m (fst e)) new
       end.
Proof. exact (forward_media_calls w m). Qed.

Lemma call_for_delivery (thread : Z) (m : message) (e : api_call * bool)
                        (d : Z * Z * option str) :
  call_for BACKUP_GROUP_ID thread m (fst e) -> delivery e = Some d ->
  fst (fst d) = BACKUP_GROUP_ID.
Proof.
  destruct e as [[to from_chat message thread' text|file|kind to thread' text suffix content]
                 [|]]; cbn; try discriminate.
  - intros (-> & _) [= <-]. reflexivity.
  - intros (-> & _) [= <-]. reflexivity.
Qed.

Lemma deliveries_go_to_backup (thread : Z) (m : message) (new : list (api_call * bool)) :
  Forall (fun e => call_for BACKUP_GROUP_ID thread m (fst e)) new ->
  Forall (fun d => fst (fst d) = BACKUP_GROUP_ID) (deliveries new).
Proof.
  induction 1 as [|e new He _ IH]; [constructor|].
  unfold deliveries. cbn [omap list_omap]. fold (deliveries new).
  destruct (delivery e) as [d|] eqn:Ed; [|exact IH].
  constructor; [exact (call_for_delivery thread m e d He Ed)|exact IH].
Qed.

Lemma process_media_cases (w : world) (m : message) :
  let relayed := process_media U BACKUP_GROUP_ID create_forum_topic copy download send_ok
                               write_ok tmp_ok unlink_ok now write_logs write_stats
                               splitext_ext w m in
  (accepted BACKUP_GROUP_ID m
   /\ relayed = snd (forward_media U BACKUP_GROUP_ID create_forum_topic copy download send_ok
                                   write_ok tmp_ok unlink_ok now write_logs write_stats
                                   splitext_ext w m))
  \/ (~ accepted BACKUP_GROUP_ID m /\ relayed = w).
Proof.
  unfold process_media, accepted. cbv zeta.
  destruct (from_user m) as [[|]|] eqn:Eu.
  1: { right. split; [|reflexivity]. intros (H & _). now apply H. }
  all: destruct (forward_from_chat m) as [c|] eqn:Ec.
  all: try (destruct (bool_decide (c ∈ IGNORED_CHAT_IDS)) eqn:Ei;
            [right; split; [|reflexivity]; apply bool_decide_eq_true in Ei;
             intros (_ & H & _); now apply (H c)|apply bool_decide_eq_false in Ei]).
  all: destruct (bool_decide (chat_type (chat m) ∈ [py "group"; py "supergroup"; py "channel"]))
         eqn:Et; cbn [negb];
       [apply bool_decide_eq_true in Et
       |right; split; [|reflexivity]; apply bool_decide_eq_false in Et;
        intros (_ & _ & H & _); now apply Et].
  all: destruct (bool_decide (chat_id (chat m) ∈ IGNORED_CHAT_IDS)) eqn:Eg;
       [right; split; [|reflexivity]; apply bool_decide_eq_true in Eg;
        intros (_ & _ & _ & H & _); now apply H
       |apply bool_decide_eq_false in Eg].
  all: destruct (chat_id (chat m) =? BACKUP_GROUP_ID)%Z eqn:Eb;
       [right; split; [|reflexivity]; apply Z.eqb_eq in Eb;
        intros (_ & _ & _ & _ & H & _); now apply H
       |apply Z.eqb_neq in Eb].
  all: destruct (has_media m) eqn:Em; cbn [negb];
       [|right; split; [|reflexivity]; intros (_ & _ & _ & _ & _ & H); discriminate].
  all: left; split; [|reflexivity]; repeat split; auto; try discriminate; congruence.
Qed.

(** [process_media] does nothing at all with a message that is not
    accepted: one sent by a bot, forwarded from an ignored chat, posted
    outside a group, supergroup or channel, posted in an ignored chat or in
    the backup group itself, or without media.  Whatever it delivers goes
    to the backup group. *)
Theorem only_accepted_messages_are_relayed (w : world) (m : message) :
  let w' := process_media U BACKUP_GROUP_ID create_forum_topic copy download send_ok
                          write_ok tmp_ok unlink_ok now write_logs write_stats
                          splitext_ext w m in
  exists new,
    calls w' = calls w ++ new
    /\ (~ accepted BACKUP_GROUP_ID m -> new = [] /\ w' = w)
    /\ Forall (fun d => fst (fst d) = BACKUP_GROUP_ID) (deliveries new).
Proof.
  cbv zeta. destruct (process_media_cases w m) as [[Ha ->]|[Hn ->]].
  - destruct (forward_media_calls w m) as (new & Hnew & Hall).
    exists new. split; [exact Hnew|]. split; [tauto|].
    destruct (fst (get_or_create_topic U create_forum_topic write_ok (bot w)
                                       (chat_id (chat m)) (source_name_of m))) as [thread|].
    + exact (deliveries_go_to_backup thread m new Hall).
    + subst new. constructor.
  - exists []. rewrite app_nil_r. repeat split; constructor.
Qed.

End RelayFacts.

(** A message posted in the backup group itself is not relayed. *)
Example backup_group_is_not_relayed :
  let m := {| message_id := 40;
              chat := {| chat_id := -1002000; title := Some (py "Backup"); first_name := None;
                         chat_type := py "supergroup" |};
              caption := None; from_user := Some false; forward_from := false;
              forward_from_chat := None;
              photo := [{| file_id := py "ph-1"; file_name := None |}]; video := None;
              document := None; audio := None; voice := None; video_note := None;
              sticker := None; animation := None |} in
  process_media Latin1.db (-1002000) (fun _ => CreateRaises) Copied (fun _ => None)
                true true true true (py "2024-05-01T10:00:00") Written Written
                (fun _ => []) memes_world m
  = memes_world.
Proof. reflexivity. Qed.

Lemma sticker_is_copied_or_dropped_witness :
  let r := forward_media Latin1.db (-1002000) thread_202 Copied (fun _ => None)
                         true true true true (py "2024-05-01T10:00:00") Written Written
                         (fun _ => []) fresh_world forwarded_sticker in
  exists new,
    calls (snd r) = calls fresh_world ++ new
    /\ bot (snd r) = snd (get_or_create_topic Latin1.db thread_202 true (bot fresh_world)
                                              (chat_id (chat forwarded_sticker))
                                              (source_name_of forwarded_sticker))
    /\ Forall (fun e => is_copy (fst e) = true) new
    /\ (fst r = true -> is_forwarded forwarded_sticker = false /\ Copied = Copied)
    /\ (is_forwarded forwarded_sticker = true
        -> new = [] /\ fst r = false /\ files (snd r) = files fresh_world).
Proof.
  apply (sticker_is_copied_or_dropped Latin1.db (-1002000) thread_202 Copied
           (fun _ => None) true true true true (py "2024-05-01T10:00:00") Written Written
           (fun _ => []) fresh_world forwarded_sticker).
  reflexivity.
Defined.

(** The forwarded sticker, met when its chat has no topic yet: the topic
    is created and saved, and the sticker is dropped. *)
Example forwarded_sticker_creates_a_topic :
  forward_media Latin1.db (-1002000) thread_202 Copied (fun _ => None)
                true true true true (py "2024-05-01T10:00:00") Written Written
                (fun _ => []) fresh_world forwarded_sticker
  = (false,
     {| bot := {| topics := [(py "Memes", 202%Z)];
                  topics_file := Some [(py "Memes", 202%Z)];
                  created := [py "Memes"] |};
        files := files fresh_world;
        calls := [] |}).
Proof. reflexivity. Qed.

(** The voice message, whose copy fails: it is sent again without its
    caption; the temporary file cannot be removed, and the call returns
    [False] with the message delivered and nothing logged. *)
Example delivered_and_reported_failed :
  let content := repeat 0 100 in
  forward_media Latin1.db (-1002000) (fun _ => CreateRaises) (CopyRaises false)
                (fun _ => Some content) true true true false (py "2024-05-01T10:00:00")
                Written Written (fun _ => []) memes_world captioned_voice
  = (false,
     {| bot := bot memes_world; files := files memes_world;
        calls := [(copy_message (-1002000) (-1001234) 32 7 (Some (py "listen")), false);
                  (get_file (py "vc-1"), true);
                  (send Voice (-1002000) 7 None (py ".ogg") content, true)] |}).
Proof. reflexivity. Qed.

(** ** The composite score against the wording of the design document *)

Lemma canon_char_space (c : N) : canon_char c = true -> is_space c = (c =? 32).
Proof.
  unfold canon_char. destruct (c =? 32) eqn:E.
  - apply N.eqb_eq in E. now subst c.
  - rewrite orb_false_r. intros H. char_arith.
Qed.

Lemma rev_cons_not_nil {A} (d : A) (cur : list A) : rev (d :: cur) <> [].
Proof. cbn [rev]. now destruct (rev cur). Qed.

Lemma split_from_spec (s : str) : forall cur,
  Forall (fun c => is_space c = (c =? 32)) s ->
  split_from cur s = spec_tokens_from (rev cur) s.
Proof.
  induction s as [|c t IH]; intros cur Hs; cbn [split_from spec_tokens_from].
  - destruct cur as [|d cur]; [reflexivity|].
    pose proof (rev_cons_not_nil d cur) as Hne.
    now destruct (rev (d :: cur)).
  - inversion Hs as [|? ? Hc Ht]; subst. rewrite Hc. destruct (c =? 32).
    + rewrite (IH [] Ht). destruct cur as [|d cur]; [reflexivity|].
      pose proof (rev_cons_not_nil d cur) as Hne.
      now destruct (rev (d :: cur)).
    + now rewrite (IH (c :: cur) Ht).
Qed.

(** On a canonical form the words of [str.split] are the tokens. *)
Lemma split_canonical (s : str) : canonical s -> split s = spec_tokens s.
Proof.
  intros Hc. unfold split, spec_tokens. rewrite split_from_spec; [reflexivity|].
  apply canonical_chars in Hc. rewrite forallb_forall in Hc.
  apply List.Forall_forall. intros c Hin. now apply canon_char_space, Hc.
Qed.

(** The keywords of the code are the KeywordSet. *)
Lemma extract_keywords_spec (U : UnicodeData) (name : str) :
  extract_keywords U name = spec_keyword_set U name.
Proof.
  unfold extract_keywords, spec_keyword_set.
  rewrite (split_canonical _ (normalize_canonical U name)).
  apply leibniz_equiv. intros w.
  rewrite elem_of_filter, !elem_of_list_to_set, !list_elem_of_In, filter_In.
  rewrite andb_true_iff, Nat.leb_le, negb_true_iff, bool_decide_eq_false.
  change stop_words with (list_to_set spec_stop_list : gset str).
  rewrite elem_of_list_to_set. tauto.
Qed.

Lemma fold_right_map_fun {A B C} (f : A -> B) (g : B -> C -> C) (z : C) (l : list A) :
  fold_right g z (map f l) = fold_right (fun a acc => g (f a) acc) z l.
Proof. induction l as [|a l IH]; cbn; [reflexivity|now rewrite IH]. Qed.

(** [max(..., default=0.0)] returns the greatest element. *)
Lemma max_default_greatest (xs : list Q) :
  Forall (fun x => (0 <= x)%Q) xs ->
  (max_default xs
   == fold_right (fun x best => if Qle_bool best x then x else best) 0 xs)%Q.
Proof.
  set (greatest := fold_right (fun x best => if Qle_bool best x then x else best) 0%Q).
  assert (forall t x, (0 <= x)%Q -> Forall (fun y => (0 <= y)%Q) t ->
            (fold_left (fun m y => if Qltb m y then y else m) t x
             == if Qle_bool (greatest t) x then x else greatest t)%Q) as Hloop.
  { induction t as [|y t IH]; intros x Hx Ht; cbn [fold_left].
    - subst greatest. cbn [fold_right].
      apply Qle_bool_iff in Hx. now rewrite Hx.
    - inversion Ht as [|? ? Hy Ht']; subst.
      assert (0 <= (if Qltb x y then y else x))%Q as Hstep by now destruct (Qltb x y).
      rewrite (IH _ Hstep Ht'). subst greatest. cbn [fold_right].
      set (r := fold_right (fun x0 best => if Qle_bool best x0 then x0 else best) 0%Q t).
      destruct (Qltb x y) eqn:E1; [apply Qltb_lt in E1|apply Qltb_ge in E1];
        destruct (Qle_bool r y) eqn:E2;
        try apply Qle_bool_iff in E2;
        try (apply not_true_iff_false in E2; rewrite Qle_bool_iff in E2;
             apply Qnot_le_lt in E2);
        repeat match goal with
        | |- context [Qle_bool ?u ?v] =>
            let E := fresh "E" in
            destruct (Qle_bool u v) eqn:E;
            [apply Qle_bool_iff in E
            |apply not_true_iff_false in E; rewrite Qle_bool_iff in E;
             apply Qnot_le_lt in E]
        end; lra. }
  intros Hxs. destruct xs as [|x t]; [reflexivity|].
  inversion Hxs as [|? ? Hx Ht]; subst.
  cbn [max_default]. rewrite (Hloop t x Hx Ht). reflexivity.
Qed.

Lemma best_match_spec (w : str) (ws : list str) :
  (max_default (map (fun w2 => SequenceMatcher.ratio w w2) ws) == spec_best_match w ws)%Q.
Proof.
  rewrite max_default_greatest.
  - unfold spec_best_match. now rewrite fold_right_map_fun.
  - apply List.Forall_forall. intros x Hx. apply in_map_iff in Hx as (w2 & <- & _).
    apply ratio_bounds.
Qed.

Lemma Qsum_best_matches (ws1 ws2 : list str) :
  (Qsum (best_matches ws1 ws2)
   == fold_right (fun a acc => spec_best_match a ws2 + acc) 0 ws1)%Q.
Proof.
  unfold best_matches. induction ws1 as [|w ws1 IH]; cbn [map fold_right]; [reflexivity|].
  now rewrite Qsum_cons, IH, best_match_spec.
Qed.

(** The word similarity of the code is the token similarity. *)
Lemma word_avg_similarity_spec (words1 words2 : list str) :
  (word_avg_similarity_of words1 words2 == spec_token_similarity words1 words2)%Q.
Proof.
  unfold word_avg_similarity_of, spec_token_similarity. cbv zeta.
  assert (length (best_matches words1 words2 ++ best_matches words2 words1)
          = (length words1 + length words2)%nat) as Hlen
    by (unfold best_matches; now rewrite length_app, !length_map).
  destruct (best_matches words1 words2 ++ best_matches words2 words1) as [|x l] eqn:El.
  - cbn [length] in Hlen. now rewrite <- Hlen.
  - rewrite <- Hlen. cbn [length]. rewrite <- El.
    rewrite Qsum_app, !Qsum_best_matches.
    unfold Qlen. rewrite El. reflexivity.
Qed.

(** C5. For two non-empty names with different canonical forms the score
    is 0.40 x sequence similarity + 0.35 x keyword similarity + 0.25 x
    token similarity, where the keyword similarity is the Jaccard index of
    the two KeywordSets and the token similarity the average of the best
    matches, each as the design document defines it. *)
Theorem composite_score_formula (U : UnicodeData) (name1 name2 : str) :
  name1 <> [] -> name2 <> [] ->
  normalize_topic_name U name1 <> normalize_topic_name U name2 ->
  let norm1 := normalize_topic_name U name1 in
  let norm2 := normalize_topic_name U name2 in
  (fst (calculate_similarity U name1 name2)
   == 0.40 * SequenceMatcher.ratio norm1 norm2
      + 0.35 * jaccard_index (spec_keyword_set U name1) (spec_keyword_set U name2)
      + 0.25 * spec_token_similarity (spec_tokens norm1) (spec_tokens norm2))%Q.
Proof.
  intros H1 H2 Hn norm1 norm2.
  rewrite (calculate_similarity_hybrid U name1 name2 H1 H2 Hn).
  rewrite keyword_similarity_is_jaccard, !extract_keywords_spec.
  rewrite word_avg_similarity_spec.
  rewrite !(split_canonical _ (normalize_canonical U _)).
  fold norm1 norm2. ring.
Qed.

(** [Daily News] against [Daily News 2]: 10/11, 1 and 4/5 give 201/220. *)
Lemma composite_score_formula_witness :
  let norm1 := normalize_topic_name Latin1.db (py "Daily News") in
  let norm2 := normalize_topic_name Latin1.db (py "Daily News 2") in
  (fst (calculate_similarity Latin1.db (py "Daily News") (py "Daily News 2"))
   == 0.40 * SequenceMatcher.ratio norm1 norm2
      + 0.35 * jaccard_index (spec_keyword_set Latin1.db (py "Daily News"))
                             (spec_keyword_set Latin1.db (py "Daily News 2"))
      + 0.25 * spec_token_similarity (spec_tokens norm1) (spec_tokens norm2))%Q.
Proof.
  apply (composite_score_formula Latin1.db (py "Daily News") (py "Daily News 2"));
    vm_compute; discriminate.
Defined.

(** The three parts of that score, computed from the definitions of the
    design document alone. *)
Example daily_news_2_by_the_document :
  spec_tokens (py "daily news 2") = [py "daily"; py "news"; py "2"]
  /\ spec_keyword_set Latin1.db (py "Daily News 2") = {[py "daily"; py "news"]}
  /\ (jaccard_index (spec_keyword_set Latin1.db (py "Daily News"))
                    (spec_keyword_set Latin1.db (py "Daily News 2")) == 1)%Q
  /\ (spec_token_similarity (spec_tokens (py "daily news")) (spec_tokens (py "daily news 2"))
      == 4 # 5)%Q
  /\ (0.40 * (20 # 22) + 0.35 * 1 + 0.25 * (4 # 5) == 201 # 220)%Q.
Proof.
  split; [reflexivity|]. split; [apply (bool_decide_unpack _); vm_compute; exact I|].
  vm_compute. repeat split; reflexivity.
Qed.
